(** * The dispatcher worker of the Grobid helper ([internal/dispatcher/worker.go])

    A shallow embedding of [Worker], [createAWSSession], [downloadFileFromS3]
    and [processMessage], and the properties of the message pipeline and of
    the shared rate gate ([lastRequestTime] under [lastRequestTimeMu]).

    The Go functions are written as command trees ([prog]): every call that
    leaves the function (the JSON decoder, the loggers, the mutex, the clock,
    the AWS clients, package [parsing]) is a node [Vis c k] whose
    continuation [k] receives the call's result.  The same tree is given two
    readings: [run], which executes one call of [processMessage] against a
    [World] that answers the external calls and yields the list of calls
    made; and [pool_step], the interleaving of several [Worker] goroutines
    over the shared process state. *)

From Stdlib Require Import ZArith Lia Ascii.
From stdpp Require Import base option list strings gmap.

Set Warnings "-register-all".
Local Open Scope string_scope.
Local Open Scope Z_scope.

(** ** Go values *)

(** A Go [error] is represented by its [Error()] text; [nil] is [None] of
    [option error]. *)
Definition error : Type := string.

(** A call returning [(T, error)] of which the caller reads [T] only when
    the error is [nil]. *)
Inductive result (A : Type) : Type :=
| Ok (a : A)
| Err (err : error).
#[global] Arguments Ok {A} a.
#[global] Arguments Err {A} err.

(** [[]byte]; the [nil] slice is the empty list. *)
Abbreviation bytes := (list Byte.byte).

(** What [json.Unmarshal] stores in an [interface{}]: [nil], [bool],
    [float64] (kept as its IEEE-754 bit pattern), [string],
    [[]interface{}] and [map[string]interface{}]. *)
Inductive json : Type :=
| JNull
| JBool (b : bool)
| JNumber (bits : Z)
| JString (s : string)
| JArray (l : list json)
| JObject (m : gmap string json).

(** [time.Duration] is an [int64] count of nanoseconds. *)
Definition Duration : Type := Z.
Definition minDuration : Duration := - 2 ^ 63.
Definition maxDuration : Duration := 2 ^ 63 - 1.
Definition Second : Duration := 1000000000.

(** [int64] wrap-around, for arithmetic on [Duration]. *)
Definition wrap64 (z : Z) : Z := (z + 2 ^ 63) mod 2 ^ 64 - 2 ^ 63.

Definition is_Duration (d : Z) : Prop := minDuration <= d <= maxDuration.

(** [a - b] on [Duration]. *)
Definition Duration_sub (a b : Duration) : Duration := wrap64 (a - b).

(** A [time.Time] is an instant, counted in nanoseconds from the zero
    [Time] (January 1, year 1, 00:00:00 UTC). *)
Definition Time : Type := Z.
Definition zeroTime : Time := 0.

(** [t.Sub(u)]: the difference, or the maximum (minimum) [Duration] when it
    does not fit. *)
Definition Time_Sub (t u : Time) : Duration :=
  Z.max minDuration (Z.min maxDuration (t - u)).

(** The Unix epoch as a [Time]: 62135596800 seconds after the zero [Time]. *)
Definition unixEpoch : Time := 62135596800 * Second.

(** [*sqs.Message]: the two fields the worker reads, both [*string]. *)
Record Message : Type := mkMessage {
  Body : option string;
  ReceiptHandle : option string
}.

(** An operand of a [fmt]/[log] call. *)
Inductive fmtarg : Type :=
| AInt (n : Z)
| AStr (s : string)
| ADuration (d : Duration)
| AErr (err : error).

(** ** The packages the worker calls

    The types of the AWS SDK and of package [parsing] that pass through the
    worker without being inspected, [Doi] being the one field it reads. *)
Class External : Type := {
  Session : Type;                      (* *session.Session *)
  S3 : Type;                           (* *s3.S3 *)
  s3_New : Session -> S3;              (* s3.New(sess) *)
  ReadCloser : Type;                   (* io.ReadCloser, the Body of a GetObjectOutput *)
  SQS : Type;                          (* *sqs.SQS *)
  CrudeGrobidResponse : Type;          (* result of parsing.SendPDF2Grobid *)
  TidyGrobidResponse : Type;           (* result of parsing.TidyUpGrobidResponse *)
  Doi : TidyGrobidResponse -> string;  (* its field Doi *)
  CrudeCrossRefResponse : Type;        (* result of parsing.CrossReferenceData *)
  TidyCrossRefResponse : Type          (* result of parsing.TidyCrossRefData *)
}.

Section Dispatcher.
Context `{Ext : External}.

(** ** Commands *)

Inductive cmd : Type :=
(* envHelper, time.ParseDuration *)
| envHelper_GetEnvVariable (key : string)
| time_ParseDuration (s : string)
(* encoding/json *)
| json_Unmarshal (data : string)
(* fmt and log *)
| fmt_Printf (format : string) (args : list fmtarg)
| fmt_Println (args : list fmtarg)
| log_Printf (format : string) (args : list fmtarg)
| log_Println (args : list fmtarg)
(* the channel messageQueue *)
| chan_recv
(* lastRequestTimeMu and lastRequestTime *)
| Mu_Lock
| Mu_Unlock
| load_lastRequestTime
| store_lastRequestTime (t : Time)
(* time *)
| time_Now
| time_Sleep (d : Duration)
(* AWS *)
| session_NewSession (region : string)
| s3_GetObject (s3Svc : S3) (bucket key : string)
| ioutil_ReadAll (r : ReadCloser)
| Body_Close (r : ReadCloser)
| sqs_ChangeMessageVisibility (svc : SQS) (queueUrl : string)
    (receiptHandle : option string) (visibilityTimeout : Z)
(* package parsing *)
| parsing_SendPDF2Grobid (file : bytes)
| parsing_TidyUpGrobidResponse (crude : CrudeGrobidResponse)
| parsing_CrossReferenceData (doi : string)
| parsing_TidyCrossRefData (crude : CrudeCrossRefResponse).

(** What each command hands back. *)
Definition resp (c : cmd) : Type :=
  match c with
  | envHelper_GetEnvVariable _ => string
  | time_ParseDuration _ => result Duration
  | json_Unmarshal _ => result (gmap string json)
  | fmt_Printf _ _ | fmt_Println _ | log_Printf _ _ | log_Println _ => unit
  | chan_recv => Message
  | Mu_Lock | Mu_Unlock => unit
  | load_lastRequestTime => Time
  | store_lastRequestTime _ => unit
  | time_Now => Time
  | time_Sleep _ => unit
  | session_NewSession _ => result Session
  | s3_GetObject _ _ _ => result ReadCloser
  | ioutil_ReadAll _ => (bytes * option error)%type
  | Body_Close _ => option error
  | sqs_ChangeMessageVisibility _ _ _ _ => option error
  | parsing_SendPDF2Grobid _ => result CrudeGrobidResponse
  | parsing_TidyUpGrobidResponse _ => result TidyGrobidResponse
  | parsing_CrossReferenceData _ => result CrudeCrossRefResponse
  | parsing_TidyCrossRefData _ => TidyCrossRefResponse
  end.

(** ** Programs *)

(** A program returns, panics, exits the process ([os.Exit]) or makes a
    call and goes on with its result. *)
Inductive prog (R : Type) : Type :=
| Ret (r : R)
| Panic (reason : string)
| Exit (code : Z)
| Vis (c : cmd) (k : resp c -> prog R).
#[global] Arguments Ret {R} r.
#[global] Arguments Panic {R} reason.
#[global] Arguments Exit {R} code.
#[global] Arguments Vis {R} c k.

Fixpoint bind {A B : Type} (p : prog A) (f : A -> prog B) : prog B :=
  match p with
  | Ret a => f a
  | Panic reason => Panic reason
  | Exit code => Exit code
  | Vis c k => Vis c (fun x => bind (k x) f)
  end.

Definition call (c : cmd) : prog (resp c) := Vis c Ret.

#[export] Instance prog_ret : MRet prog := @Ret.
#[export] Instance prog_bind : MBind prog := fun A B f p => bind p f.

(** [defer d] around a function body: [d] runs when the body returns and
    when it panics, not when the process exits. *)
Fixpoint defer {R : Type} (d : prog unit) (body : prog R) : prog R :=
  match body with
  | Ret r => d;; Ret r
  | Panic reason => d;; Panic reason
  | Exit code => Exit code
  | Vis c k => Vis c (fun x => defer d (k x))
  end.

(** [log.Fatalf] is [log.Printf] followed by [os.Exit(1)]. *)
Definition log_Fatalf {R : Type} (format : string) (args : list fmtarg) : prog R :=
  call (log_Printf format args);; Exit 1.

(** [*p] on a [*string]. *)
Definition deref {A : Type} (p : option A) : prog A :=
  match p with
  | Some a => Ret a
  | None => Panic "runtime error: invalid memory address or nil pointer dereference"
  end.

(** [v.(string)] on the result of a map index ([nil] for a missing key). *)
Definition assert_string (v : option json) : prog string :=
  match v with
  | Some (JString s) => Ret s
  | _ => Panic "interface conversion: interface {} is not string"
  end.

(** [time.Since(t)] is [time.Now().Sub(t)]. *)
Definition time_Since (t : Time) : prog Duration :=
  now ← call time_Now; Ret (Time_Sub now t).

(** ** The source functions *)

(** [session.Must(session.NewSession(...))]: [Must] panics on an error. *)
Definition createAWSSession (region : string) : prog Session :=
  r ← call (session_NewSession region);
  match r with
  | Err err => Panic err
  | Ok sess => Ret sess
  end.

Definition downloadFileFromS3 (s3Svc : S3) (bucket path : string)
  : prog (bytes * option error) :=
  output ← call (s3_GetObject s3Svc bucket path);
  match output with
  | Err err => Ret ([], Some err)
  | Ok output_Body =>
    defer
      (err ← call (Body_Close output_Body);
       match err with
       | Some err =>
         call (fmt_Println [AStr "Error closing S3 response body:"; AErr err])
       | None => Ret tt
       end)
      ('(fileContent, err) ← call (ioutil_ReadAll output_Body);
       match err with
       | Some err => Ret ([], Some err)
       | None => Ret (fileContent, None)
       end)
  end.

Definition processMessage (id : Z) (message : Message) (svc : SQS)
    (sqsURL s3Bucket awsRegion : string) (minGap : Duration) : prog unit :=
  body ← deref (Body message);
  decoded ← call (json_Unmarshal body);
  match decoded with
  | Err err =>
    call (log_Println [AStr "Error decoding JSON message:"; AErr err])
  | Ok msgData =>
    path ← assert_string (msgData !! "s3Location");
    userID ← assert_string (msgData !! "user_id");
    screenID ← assert_string (msgData !! "screen_id");
    call (fmt_Printf
            "Worker %d received message. Path: %s. User ID: %s. Screen ID: %s\n"
            [AInt id; AStr path; AStr userID; AStr screenID]);;
    call Mu_Lock;;
    timeSinceLastRequest ← (t ← call load_lastRequestTime; time_Since t);
    call Mu_Unlock;;
    (if timeSinceLastRequest <? minGap then
       let sleepTime := Duration_sub minGap timeSinceLastRequest in
       call (log_Printf
               "Worker %d sleeping for %v to meet the minimum gap between requests\n"
               [AInt id; ADuration sleepTime]);;
       call (time_Sleep sleepTime)
     else Ret tt);;
    sess ← createAWSSession awsRegion;
    let s3Svc := s3_New sess in
    '(fileContent, err) ← downloadFileFromS3 s3Svc s3Bucket path;
    match err with
    | Some err =>
      call (log_Println [AStr "Error downloading file from S3:"; AErr err]);;
      call (log_Printf "Bucket: %s, Key: %s\n" [AStr s3Bucket; AStr path])
    | None =>
      grobid ← call (parsing_SendPDF2Grobid fileContent);
      match grobid with
      | Err err =>
        call (log_Println [AStr "Error sending file to Grobid service:"; AErr err])
      | Ok CrudeGrobidResponse =>
        tidied ← call (parsing_TidyUpGrobidResponse CrudeGrobidResponse);
        match tidied with
        | Err err =>
          call (log_Println [AStr "Error tidying up Grobid response:"; AErr err])
        | Ok tidyGrobidResponse =>
          crossref ← call (parsing_CrossReferenceData (Doi tidyGrobidResponse));
          match crossref with
          | Err err =>
            call (log_Println [AStr "Error cross referencing data:"; AErr err])
          | Ok crudeCrossRefResponse =>
            call (parsing_TidyCrossRefData crudeCrossRefResponse);;
            call Mu_Lock;;
            now ← call time_Now;
            call (store_lastRequestTime now);;
            call Mu_Unlock;;
            err ← call (sqs_ChangeMessageVisibility svc sqsURL
                           (ReceiptHandle message) 30);
            match err with
            | Some err =>
              call (log_Println
                      [AStr "Error putting message back to the queue:"; AErr err])
            | None => Ret tt
            end
          end
        end
      end
    end
  end.

(** The body of the loop of [Worker]: one receive, one [processMessage]. *)
Definition Worker_iteration (id : Z) (svc : SQS) (sqsURL s3Bucket awsRegion : string)
    (minGap : Duration) : prog unit :=
  message ← call chan_recv;
  processMessage id message svc sqsURL s3Bucket awsRegion minGap.

(** [Worker] up to its loop: the configuration it reads, handed to the
    loop.  The parameter [s *store.Store] is not used by the source. *)
Definition Worker_start (id : Z) : prog (string * Duration) :=
  awsRegion ← call (envHelper_GetEnvVariable "AWS_REGION");
  minGapBetweenRequests ←
    call (envHelper_GetEnvVariable "MINIMUM_GAP_BETWEEN_REQUESTS_SECONDS");
  parsed ← call (time_ParseDuration (minGapBetweenRequests +:+ "s"));
  match parsed with
  | Err err =>
    log_Fatalf "Error parsing MINIMUM_GAP_BETWEEN_REQUESTS_SECONDS: %v" [AErr err]
  | Ok minGap =>
    call (log_Printf "Starting worker %d...\n" [AInt id]);;
    Ret (awsRegion, minGap)
  end.

(** ** The process state and one call of a command *)

(** The package-level variables, the clock and the shared channel.  The
    mutex records which goroutine locked it; Go does not, and neither
    [Mu_Lock] nor [Mu_Unlock] reads who it is. *)
Record Process : Type := mkProcess {
  lastRequestTime : Time;
  lastRequestTimeMu : option nat;
  clock : Time;
  messageQueue : list Message
}.

(** The process as it starts: the zero [Time], an unlocked mutex. *)
Definition boot (now : Time) (queue : list Message) : Process :=
  mkProcess zeroTime None now queue.

Definition set_lastRequestTime (t : Time) (s : Process) : Process :=
  let '(mkProcess _ mu now queue) := s in mkProcess t mu now queue.
Definition set_lastRequestTimeMu (mu : option nat) (s : Process) : Process :=
  let '(mkProcess last _ now queue) := s in mkProcess last mu now queue.
Definition set_messageQueue (queue : list Message) (s : Process) : Process :=
  let '(mkProcess last mu now _) := s in mkProcess last mu now queue.
Definition advance (d : Z) (s : Process) : Process :=
  let '(mkProcess last mu now queue) := s in mkProcess last mu (now + d) queue.

(** What is outside the process: the result of every external call, and
    the time every call takes, both free to depend on when it is made. *)
Record World : Type := mkWorld {
  answer : Time -> forall c : cmd, resp c;
  latency : Time -> cmd -> N
}.

Inductive reply (X : Type) : Type :=
| Went (x : X) (s : Process)
| Waits
| Throws (reason : string).
#[global] Arguments Went {X} x s.
#[global] Arguments Waits {X}.
#[global] Arguments Throws {X} reason.

(** The effect of a command of goroutine [g] on the process, before the
    time it takes: the mutex, the variable, the clock and the channel are
    the process's own; to every other command the process hands back the
    answer [a] it got from outside. *)
Definition effect (g : nat) (c : cmd) (a : resp c) (s : Process) : reply (resp c) :=
  match c as c0 return resp c0 -> reply (resp c0) with
  | Mu_Lock => fun _ =>
    match lastRequestTimeMu s with
    | None => Went tt (set_lastRequestTimeMu (Some g) s)
    | Some _ => Waits
    end
  | Mu_Unlock => fun _ =>
    match lastRequestTimeMu s with
    | Some _ => Went tt (set_lastRequestTimeMu None s)
    | None => Throws "fatal error: sync: unlock of unlocked mutex"
    end
  | load_lastRequestTime => fun _ => Went (lastRequestTime s) s
  | store_lastRequestTime t => fun _ => Went tt (set_lastRequestTime t s)
  | time_Now => fun _ => Went (clock s) s
  | time_Sleep d => fun _ => Went tt (advance (Z.max 0 d) s)
  | chan_recv => fun _ =>
    match messageQueue s with
    | [] => Waits
    | m :: q => Went m (set_messageQueue q s)
    end
  | _ => fun a => Went a s
  end a.

Definition took {X : Type} (d : N) (r : reply X) : reply X :=
  match r with
  | Went x s' => Went x (advance (Z.of_N d) s')
  | r => r
  end.

Definition exec (w : World) (g : nat) (c : cmd) (s : Process) : reply (resp c) :=
  took (latency w (clock s) c) (effect g c (answer w (clock s) c) s).

(** ** One goroutine run to the end *)

Definition event : Type := sigT resp.
Definition ev (c : cmd) (r : resp c) : event := existT c r.

Inductive outcome (R : Type) : Type :=
| Returned (r : R)
| Panicked (reason : string)
| Exited (code : Z)
| Blocked.
#[global] Arguments Returned {R} r.
#[global] Arguments Panicked {R} reason.
#[global] Arguments Exited {R} code.
#[global] Arguments Blocked {R}.

Record execution (R : Type) : Type := mkExecution {
  outcome_of : outcome R;
  final : Process;
  trace : list event
}.
#[global] Arguments mkExecution {R}.
#[global] Arguments outcome_of {R}.
#[global] Arguments final {R}.
#[global] Arguments trace {R}.

Definition logged {R : Type} (e : event) (x : execution R) : execution R :=
  mkExecution (outcome_of x) (final x) (e :: trace x).

(** [run w g p s]: goroutine [g] runs [p] alone from [s]; the calls it
    made, in order, each with its result, are the [trace]. *)
Fixpoint run {R : Type} (w : World) (g : nat) (p : prog R) (s : Process)
  : execution R :=
  match p with
  | Ret r => mkExecution (Returned r) s []
  | Panic reason => mkExecution (Panicked reason) s []
  | Exit code => mkExecution (Exited code) s []
  | Vis c k =>
    match exec w g c s with
    | Went x s' => logged (ev c x) (run w g (k x) s')
    | Waits => mkExecution Blocked s []
    | Throws reason => mkExecution (Panicked reason) s []
    end
  end.

(** [every_run A Q g p s]: [Q] holds of the execution of [p] by goroutine
    [g] from [s] whatever the external calls answer within [A] and however
    long each call takes. *)
Fixpoint every_run {R : Type} (A : forall c : cmd, resp c -> Prop)
    (Q : execution R -> Prop) (g : nat) (p : prog R) (s : Process) : Prop :=
  match p with
  | Ret r => Q (mkExecution (Returned r) s [])
  | Panic reason => Q (mkExecution (Panicked reason) s [])
  | Exit code => Q (mkExecution (Exited code) s [])
  | Vis c k =>
    forall (a : resp c) (d : N), A c a ->
      match took d (effect g c a s) with
      | Went x s' => every_run A (fun x' => Q (logged (ev c x) x')) g (k x) s'
      | Waits => Q (mkExecution Blocked s [])
      | Throws reason => Q (mkExecution (Panicked reason) s [])
      end
  end.

(** Any answer at all. *)
Definition any_answer (c : cmd) (a : resp c) : Prop := True.

(** The answers of a world that answers a call the same way at all times. *)
Definition timeless (w : World) : Prop :=
  forall (t : Time) (c : cmd), answer w t c = answer w zeroTime c.
Definition answer_of (w : World) (c : cmd) (a : resp c) : Prop :=
  a = answer w zeroTime c.

(** ** The pool: several [Worker] goroutines over one process *)

(** Where a [Worker] is: before its loop, or inside an iteration of it
    with the configuration it read. *)
Inductive phase : Type :=
| Starting (p : prog (string * Duration))
| Looping (awsRegion : string) (minGap : Duration) (p : prog unit).

(** A goroutine running [Worker id messageQueue svc sqsURL s3Bucket s]:
    its arguments, where it is, and until when it sleeps if it does. *)
Record Goroutine : Type := mkGoroutine {
  w_id : Z;
  w_svc : SQS;
  w_sqsURL : string;
  w_s3Bucket : string;
  w_phase : phase;
  w_wake : option Time
}.

Definition set_phase (ph : phase) (wake : option Time) (th : Goroutine) : Goroutine :=
  mkGoroutine (w_id th) (w_svc th) (w_sqsURL th) (w_s3Bucket th) ph wake.

Record Pool : Type := mkPool {
  process : Process;
  workers : list Goroutine;
  alive : bool
}.

(** [go Worker(id, messageQueue, svc, sqsURL, s3Bucket, s)]. *)
Definition spawn (id : Z) (svc : SQS) (sqsURL s3Bucket : string) : Goroutine :=
  mkGoroutine id svc sqsURL s3Bucket (Starting (Worker_start id)) None.

(** One move of the code of goroutine [g]: it goes on (falling asleep at
    [time.Sleep]), or the process dies (a panic, an exit, a fatal error of
    the runtime); a goroutine that returned or waits has no move. *)
Inductive moved (R : Type) : Type :=
| Goes (p : prog R) (s : Process) (nap : option Time)
| Dies.
#[global] Arguments Goes {R} p s nap.
#[global] Arguments Dies {R}.

Definition move {R : Type} (w : World) (g : nat) (p : prog R) (s : Process)
  : option (moved R) :=
  match p with
  | Ret _ => None
  | Panic _ | Exit _ => Some Dies
  | Vis c k =>
    match c as c0 return (resp c0 -> prog R) -> option (moved R) with
    | time_Sleep d => fun k => Some (Goes (k tt) s (Some (clock s + Z.max 0 d)))
    | c0 => fun k =>
      match effect g c0 (answer w (clock s) c0) s with
      | Went x s' => Some (Goes (k x) s' None)
      | Waits => None
      | Throws _ => Some Dies
      end
    end k
  end.

Definition settle (P : Pool) (g : nat) (th : Goroutine) (wrap : prog unit -> phase)
    (m : moved unit) : Pool :=
  match m with
  | Goes p s nap => mkPool s (<[g := set_phase (wrap p) nap th]> (workers P)) true
  | Dies => mkPool (process P) (workers P) false
  end.

Definition settle_start (P : Pool) (g : nat) (th : Goroutine)
    (m : moved (string * Duration)) : Pool :=
  match m with
  | Goes p s nap => mkPool s (<[g := set_phase (Starting p) nap th]> (workers P)) true
  | Dies => mkPool (process P) (workers P) false
  end.

Inductive action : Type :=
| Step (g : nat)
| Tick (d : N).

(** One step of the pool: time passes, or goroutine [g] wakes up, enters
    the next iteration of its loop, or makes its next call. *)
Definition fire (w : World) (a : action) (P : Pool) : option Pool :=
  if alive P then
    match a with
    | Tick d => Some (mkPool (advance (Z.of_N d) (process P)) (workers P) true)
    | Step g =>
      th ← workers P !! g;
      let iteration awsRegion minGap :=
        Looping awsRegion minGap
          (Worker_iteration (w_id th) (w_svc th) (w_sqsURL th) (w_s3Bucket th)
             awsRegion minGap) in
      match w_wake th with
      | Some t =>
        if bool_decide (t <= clock (process P))
        then Some (mkPool (process P)
                     (<[g := set_phase (w_phase th) None th]> (workers P)) true)
        else None
      | None =>
        match w_phase th with
        | Starting (Ret (awsRegion, minGap)) =>
          Some (mkPool (process P)
                  (<[g := set_phase (iteration awsRegion minGap) None th]> (workers P))
                  true)
        | Starting p => settle_start P g th <$> move w g p (process P)
        | Looping awsRegion minGap (Ret _) =>
          Some (mkPool (process P)
                  (<[g := set_phase (iteration awsRegion minGap) None th]> (workers P))
                  true)
        | Looping awsRegion minGap p =>
          settle P g th (Looping awsRegion minGap) <$> move w g p (process P)
        end
      end
    end
  else None.

Definition pool_step (P P' : Pool) : Prop :=
  exists (w : World) (a : action), fire w a P = Some P'.

Definition reachable (P0 P : Pool) : Prop := rtc pool_step P0 P.

(** A schedule played from a pool. *)
Fixpoint play (w : World) (sched : list action) (P : Pool) : option Pool :=
  match sched with
  | [] => Some P
  | a :: sched' => P' ← fire w a P; play w sched' P'
  end.

(** The next call of a goroutine that is awake. *)
Definition first_call {R : Type} (p : prog R) : option cmd :=
  match p with
  | Vis c _ => Some c
  | _ => None
  end.

Definition next_call (th : Goroutine) : option cmd :=
  match w_wake th with
  | Some _ => None
  | None =>
    match w_phase th with
    | Starting p => first_call p
    | Looping _ _ p => first_call p
    end
  end.

(** ** The lock discipline of a program

    [disciplined held p]: started with the lock held or not, [p] reads
    and writes [lastRequestTime] only with the lock held, holds it over
    nothing but these and the clock, never sleeps, waits, calls out or
    stops with it, and returns without it. *)
Definition in_section (c : cmd) : bool :=
  match c with
  | load_lastRequestTime | store_lastRequestTime _ | time_Now | Mu_Unlock => true
  | _ => false
  end.

Definition out_of_section (c : cmd) : bool :=
  match c with
  | load_lastRequestTime | store_lastRequestTime _ | Mu_Unlock => false
  | _ => true
  end.

Definition permitted (held : bool) (c : cmd) : bool :=
  if held then in_section c else out_of_section c.

Definition holds_after (held : bool) (c : cmd) : bool :=
  match c with
  | Mu_Lock => true
  | Mu_Unlock => false
  | _ => held
  end.

Definition touches_timestamp (c : cmd) : bool :=
  match c with
  | load_lastRequestTime | store_lastRequestTime _ => true
  | _ => false
  end.

Definition falls_asleep (c : cmd) : bool :=
  match c with time_Sleep _ => true | _ => false end.

Fixpoint disciplined {R : Type} (held : bool) (p : prog R) : Prop :=
  match p with
  | Ret _ | Panic _ | Exit _ => held = false
  | Vis c k => permitted held c = true /\
               forall x : resp c, disciplined (holds_after held c) (k x)
  end.

Definition code_disciplined (held : bool) (ph : phase) : Prop :=
  match ph with
  | Starting p => disciplined held p
  | Looping _ _ p => disciplined held p
  end.

(** The goroutine that holds the lock. *)
Definition holds (P : Pool) (g : nat) : bool :=
  bool_decide (lastRequestTimeMu (process P) = Some g).

(** What every step of the pool keeps: each goroutine's code is
    disciplined, from the lock held for the one that holds it; that one
    is awake, and is one of the pool. *)
Definition lock_invariant (P : Pool) : Prop :=
  (forall g th, workers P !! g = Some th ->
     code_disciplined (holds P g) (w_phase th)
     /\ (holds P g = true -> w_wake th = None))
  /\ (forall g, lastRequestTimeMu (process P) = Some g -> is_Some (workers P !! g)).

(** The pool as [main] starts it: one goroutine per [go Worker(...)], the
    process as it boots. *)
Definition launch (ws : list (Z * SQS * string * string)) (now : Time)
    (queue : list Message) : Pool :=
  mkPool (boot now queue)
         (map (fun '(id, svc, sqsURL, s3Bucket) => spawn id svc sqsURL s3Bucket) ws)
         true.

(** A world given call by call, the same at all times. *)
Record Services : Type := mkServices {
  GetEnvVariable : string -> string;
  ParseDuration : string -> result Duration;
  Unmarshal : string -> result (gmap string json);
  NewSession : string -> result Session;
  GetObject : S3 -> string -> string -> result ReadCloser;
  ReadAll : ReadCloser -> bytes * option error;
  Close : ReadCloser -> option error;
  SendPDF2Grobid : bytes -> result CrudeGrobidResponse;
  TidyUpGrobidResponse : CrudeGrobidResponse -> result TidyGrobidResponse;
  CrossReferenceData : string -> result CrudeCrossRefResponse;
  TidyCrossRefData : CrudeCrossRefResponse -> TidyCrossRefResponse;
  ChangeMessageVisibility : SQS -> string -> option string -> Z -> option error
}.

Definition serve (sv : Services) (c : cmd) : resp c :=
  match c as c0 return resp c0 with
  | envHelper_GetEnvVariable key => GetEnvVariable sv key
  | time_ParseDuration s => ParseDuration sv s
  | json_Unmarshal data => Unmarshal sv data
  | fmt_Printf _ _ | fmt_Println _ | log_Printf _ _ | log_Println _ => tt
  | chan_recv => mkMessage None None
  | Mu_Lock | Mu_Unlock => tt
  | load_lastRequestTime => zeroTime
  | store_lastRequestTime _ => tt
  | time_Now => zeroTime
  | time_Sleep _ => tt
  | session_NewSession region => NewSession sv region
  | s3_GetObject s3Svc bucket key => GetObject sv s3Svc bucket key
  | ioutil_ReadAll r => ReadAll sv r
  | Body_Close r => Close sv r
  | sqs_ChangeMessageVisibility svc queueUrl receiptHandle visibilityTimeout =>
    ChangeMessageVisibility sv svc queueUrl receiptHandle visibilityTimeout
  | parsing_SendPDF2Grobid file => SendPDF2Grobid sv file
  | parsing_TidyUpGrobidResponse crude => TidyUpGrobidResponse sv crude
  | parsing_CrossReferenceData doi => CrossReferenceData sv doi
  | parsing_TidyCrossRefData crude => TidyCrossRefData sv crude
  end.

Definition world_of (sv : Services) (lat : cmd -> N) : World :=
  mkWorld (fun _ => serve sv) (fun _ => lat).

(** ** Reading a trace *)

Definition command (e : event) : cmd := projT1 e.

(** The error an event carries, if its call failed. *)
Definition failure (e : event) : option error :=
  match e with
  | existT c r =>
    match c as c0 return resp c0 -> option error with
    | time_ParseDuration _ => fun r => match r with Err err => Some err | Ok _ => None end
    | json_Unmarshal _ => fun r => match r with Err err => Some err | Ok _ => None end
    | session_NewSession _ => fun r => match r with Err err => Some err | Ok _ => None end
    | s3_GetObject _ _ _ => fun r => match r with Err err => Some err | Ok _ => None end
    | ioutil_ReadAll _ => fun r => snd r
    | Body_Close _ => fun r => r
    | sqs_ChangeMessageVisibility _ _ _ _ => fun r => r
    | parsing_SendPDF2Grobid _ => fun r => match r with Err err => Some err | Ok _ => None end
    | parsing_TidyUpGrobidResponse _ => fun r => match r with Err err => Some err | Ok _ => None end
    | parsing_CrossReferenceData _ => fun r => match r with Err err => Some err | Ok _ => None end
    | _ => fun _ => None
    end r
  end.

Definition failed (e : event) : bool :=
  match failure e with Some _ => true | None => false end.
Definition succeeded (e : event) : bool := negb (failed e).

(** The calls of the pipeline. *)
Definition is_Unmarshal (e : event) : bool :=
  match command e with json_Unmarshal _ => true | _ => false end.
Definition is_NewSession (e : event) : bool :=
  match command e with session_NewSession _ => true | _ => false end.
Definition is_GetObject (e : event) : bool :=
  match command e with s3_GetObject _ _ _ => true | _ => false end.
Definition is_ReadAll (e : event) : bool :=
  match command e with ioutil_ReadAll _ => true | _ => false end.
Definition is_Close (e : event) : bool :=
  match command e with Body_Close _ => true | _ => false end.
Definition is_SendPDF2Grobid (e : event) : bool :=
  match command e with parsing_SendPDF2Grobid _ => true | _ => false end.
Definition is_TidyUpGrobidResponse (e : event) : bool :=
  match command e with parsing_TidyUpGrobidResponse _ => true | _ => false end.
Definition is_CrossReferenceData (e : event) : bool :=
  match command e with parsing_CrossReferenceData _ => true | _ => false end.
Definition is_TidyCrossRefData (e : event) : bool :=
  match command e with parsing_TidyCrossRefData _ => true | _ => false end.
Definition is_ChangeMessageVisibility (e : event) : bool :=
  match command e with sqs_ChangeMessageVisibility _ _ _ _ => true | _ => false end.

(** The stages of the pipeline: the storage fetch (with the stream it
    opens, reads and closes), the extraction, the normalization, the
    enrichment (lookup and tidying), the visibility extension. *)
Definition is_fetch (e : event) : bool := is_GetObject e || is_ReadAll e || is_Close e.
Definition is_extract (e : event) : bool := is_SendPDF2Grobid e.
Definition is_tidy (e : event) : bool := is_TidyUpGrobidResponse e.
Definition is_enrich (e : event) : bool := is_CrossReferenceData e || is_TidyCrossRefData e.
Definition is_extend (e : event) : bool := is_ChangeMessageVisibility e.

(** The calls that leave the process for a service. *)
Definition is_downstream (e : event) : bool :=
  is_NewSession e || is_fetch e || is_extract e || is_tidy e || is_enrich e
  || is_extend e.

(** The calls whose error ends the processing of a message. *)
Definition is_stage_call (e : event) : bool :=
  is_Unmarshal e || is_GetObject e || is_ReadAll e || is_SendPDF2Grobid e
  || is_TidyUpGrobidResponse e || is_CrossReferenceData e.

(** The rate gate: the read of the shared timestamp and the sleep make
    the acquire step; the stamp is the write. *)
Definition is_read (e : event) : bool :=
  match command e with load_lastRequestTime => true | _ => false end.
Definition is_sleep (e : event) : bool :=
  match command e with time_Sleep _ => true | _ => false end.
Definition is_stamp (e : event) : bool :=
  match command e with store_lastRequestTime _ => true | _ => false end.
Definition is_acquire (e : event) : bool := is_read e || is_sleep e.
Definition is_log (e : event) : bool :=
  match command e with
  | fmt_Printf _ _ | fmt_Println _ | log_Printf _ _ | log_Println _ => true
  | _ => false
  end.

(** How many calls of a kind a trace holds. *)
Definition calls (p : event -> bool) (tr : list event) : nat :=
  length (List.filter p tr).

(** A call of the kind was made and succeeded. *)
Definition made_ok (p : event -> bool) (tr : list event) : bool :=
  existsb (fun e => p e && succeeded e) tr.

Definition fetched (tr : list event) : bool := made_ok is_GetObject tr && made_ok is_ReadAll tr.
Definition extracted (tr : list event) : bool := made_ok is_SendPDF2Grobid tr.
Definition normalized (tr : list event) : bool := made_ok is_TidyUpGrobidResponse tr.
Definition enriched (tr : list event) : bool := made_ok is_CrossReferenceData tr.
Definition extended (tr : list event) : bool := existsb is_extend tr.
Definition all_stages (tr : list event) : bool :=
  fetched tr && extracted tr && normalized tr && enriched tr.

(** Every [p]-event of the trace comes before every [q]-event. *)
Fixpoint all_before (p q : event -> bool) (tr : list event) : bool :=
  match tr with
  | [] => true
  | e :: tr' => (negb (q e) || forallb (fun e' => negb (p e')) tr')
                && all_before p q tr'
  end.

(** What follows the first [p]-event of the trace. *)
Fixpoint after_first (p : event -> bool) (tr : list event) : list event :=
  match tr with
  | [] => []
  | e :: tr' => if p e then tr' else after_first p tr'
  end.

(** What the calls of a trace were made on and what they handed back. *)
Definition pick {A : Type} (f : event -> option A) (tr : list event) : list A :=
  omap f tr.

(** The streams opened, read and closed. *)
Definition streams_opened : list event -> list ReadCloser :=
  pick (fun e => match e with
                 | existT c r =>
                   match c as c0 return resp c0 -> option ReadCloser with
                   | s3_GetObject _ _ _ => fun r =>
                     match r with Ok body => Some body | Err _ => None end
                   | _ => fun _ => None
                   end r
                 end).
Definition streams_read : list event -> list ReadCloser :=
  pick (fun e => match command e with ioutil_ReadAll r => Some r | _ => None end).
Definition streams_closed : list event -> list ReadCloser :=
  pick (fun e => match command e with Body_Close r => Some r | _ => None end).

(** The objects asked of the storage, as (bucket, key). *)
Definition objects : list event -> list (string * string) :=
  pick (fun e => match command e with
                 | s3_GetObject _ bucket key => Some (bucket, key)
                 | _ => None
                 end).

(** The contents of the streams that were read to their end. *)
Definition contents : list event -> list bytes :=
  pick (fun e => match e with
                 | existT c r =>
                   match c as c0 return resp c0 -> option bytes with
                   | ioutil_ReadAll _ => fun r =>
                     match snd r with None => Some (fst r) | Some _ => None end
                   | _ => fun _ => None
                   end r
                 end).

(** The files sent to the extraction service. *)
Definition files_sent : list event -> list bytes :=
  pick (fun e => match command e with
                 | parsing_SendPDF2Grobid file => Some file
                 | _ => None
                 end).

(** The document identifiers of the tidied extraction responses, and the
    ones looked up. *)
Definition dois_extracted : list event -> list string :=
  pick (fun e => match e with
                 | existT c r =>
                   match c as c0 return resp c0 -> option string with
                   | parsing_TidyUpGrobidResponse _ => fun r =>
                     match r with Ok tidy => Some (Doi tidy) | Err _ => None end
                   | _ => fun _ => None
                   end r
                 end).
Definition dois_looked_up : list event -> list string :=
  pick (fun e => match command e with
                 | parsing_CrossReferenceData doi => Some doi
                 | _ => None
                 end).

(** The visibility extensions asked of the queue. *)
Definition extensions : list event -> list (SQS * string * option string * Z) :=
  pick (fun e => match command e with
                 | sqs_ChangeMessageVisibility svc queueUrl receiptHandle timeout =>
                   Some (svc, queueUrl, receiptHandle, timeout)
                 | _ => None
                 end).

(** The readings of the shared timestamp, of the clock, the sleeps and
    the stamps. *)
Definition timestamp_reads : list event -> list Time :=
  pick (fun e => match e with
                 | existT c r =>
                   match c as c0 return resp c0 -> option Time with
                   | load_lastRequestTime => fun r => Some r
                   | _ => fun _ => None
                   end r
                 end).
Definition clock_readings : list event -> list Time :=
  pick (fun e => match e with
                 | existT c r =>
                   match c as c0 return resp c0 -> option Time with
                   | time_Now => fun r => Some r
                   | _ => fun _ => None
                   end r
                 end).
Definition sleeps : list event -> list Duration :=
  pick (fun e => match command e with time_Sleep d => Some d | _ => None end).
Definition stamps : list event -> list Time :=
  pick (fun e => match command e with store_lastRequestTime t => Some t | _ => None end).

(** The errors of the calls of a kind. *)
Definition errors (p : event -> bool) : list event -> list error :=
  pick (fun e => if p e then failure e else None).

(** The payloads decoded. *)
Definition decoded : list event -> list (gmap string json) :=
  pick (fun e => match e with
                 | existT c r =>
                   match c as c0 return resp c0 -> option (gmap string json) with
                   | json_Unmarshal _ => fun r =>
                     match r with Ok msgData => Some msgData | Err _ => None end
                   | _ => fun _ => None
                   end r
                 end).

(** The lines logged. *)
Definition lines : list event -> list (list fmtarg) :=
  pick (fun e => match command e with
                 | fmt_Printf _ args | fmt_Println args
                 | log_Printf _ args | log_Println args => Some args
                 | _ => None
                 end).

(** The configuration read at the start of [Worker]: the variables asked
    of the environment, their values, and the texts parsed as durations. *)
Definition is_GetEnvVariable (e : event) : bool :=
  match command e with envHelper_GetEnvVariable _ => true | _ => false end.
Definition is_ParseDuration (e : event) : bool :=
  match command e with time_ParseDuration _ => true | _ => false end.
Definition is_recv (e : event) : bool :=
  match command e with chan_recv => true | _ => false end.
Definition variables_read : list event -> list string :=
  pick (fun e => match command e with
                 | envHelper_GetEnvVariable key => Some key
                 | _ => None
                 end).
Definition values_read : list event -> list string :=
  pick (fun e => match e with
                 | existT c r =>
                   match c as c0 return resp c0 -> option string with
                   | envHelper_GetEnvVariable _ => fun r => Some r
                   | _ => fun _ => None
                   end r
                 end).
Definition durations_parsed : list event -> list string :=
  pick (fun e => match command e with
                 | time_ParseDuration text => Some text
                 | _ => None
                 end).

Definition gaps_parsed : list event -> list Duration :=
  pick (fun e => match e with
                 | existT c r =>
                   match c as c0 return resp c0 -> option Duration with
                   | time_ParseDuration _ => fun r =>
                     match r with Ok d => Some d | Err _ => None end
                   | _ => fun _ => None
                   end r
                 end).

(** The calls on the mutex. *)
Definition is_Lock (e : event) : bool :=
  match command e with Mu_Lock => true | _ => false end.
Definition is_Unlock (e : event) : bool :=
  match command e with Mu_Unlock => true | _ => false end.

(** Every call of the trace, of whatever kind. *)
Definition any_call (e : event) : bool := true.

(** A logged line shows the error. *)
Definition shows (err : error) (line : list fmtarg) : Prop := In (AErr err) line.

(** ** The stamps of a program

    [stamps_known bound p]: whatever [p] writes to [lastRequestTime] is
    at most [bound] or a reading of the clock that [p] took before. *)
Fixpoint stamps_known {R : Type} (bound : Time) (p : prog R) : Prop :=
  match p with
  | Ret _ | Panic _ | Exit _ => True
  | Vis c k =>
    match c as c0 return (resp c0 -> prog R) -> Prop with
    | store_lastRequestTime t => fun k =>
      t <= bound /\ forall x, stamps_known bound (k x)
    | time_Now => fun k => forall x : Time, stamps_known (Z.max bound x) (k x)
    | _ => fun k => forall x, stamps_known bound (k x)
    end k
  end.

Definition code_stamps_known (bound : Time) (ph : phase) : Prop :=
  match ph with
  | Starting p => stamps_known bound p
  | Looping _ _ p => stamps_known bound p
  end.

(** What every step of the pool keeps of the time: the stamp is not
    ahead of the clock, and no goroutine is about to write one that is. *)
Definition time_invariant (P : Pool) : Prop :=
  lastRequestTime (process P) <= clock (process P)
  /\ forall g th, workers P !! g = Some th ->
       code_stamps_known (clock (process P)) (w_phase th).

(** The code of a goroutine has stopped: it panicked or exited. *)
Definition stopped (th : Goroutine) : Prop :=
  match w_phase th with
  | Starting (Panic _) | Starting (Exit _)
  | Looping _ _ (Panic _) | Looping _ _ (Exit _) => True
  | _ => False
  end.

(** The calls a goroutine makes between [Lock] and [Unlock], the unlock
    included. *)
Definition in_critical_section (c : cmd) : bool :=
  match c with
  | load_lastRequestTime | store_lastRequestTime _ | Mu_Unlock => true
  | _ => false
  end.

End Dispatcher.

(** ** Scenarios

    A small instance of the external packages, on which the functions are
    evaluated: a session is its region, a stream is the key it reads, the
    responses of package [parsing] are texts. *)

#[export] Instance demo : External := {|
  Session := string;
  S3 := string;
  s3_New := fun sess => sess;
  ReadCloser := string;
  SQS := unit;
  CrudeGrobidResponse := string;
  TidyGrobidResponse := string;
  Doi := fun tidy => tidy;
  CrudeCrossRefResponse := string;
  TidyCrossRefResponse := string
|}.

Definition quoted (s : string) : string :=
  String "034"%char (s +:+ String "034"%char "").

(** The body [{"s3Location":"docs/1.pdf","user_id":"u1","screen_id":"s1"}]. *)
Definition body_A : string :=
  "{" +:+ quoted "s3Location" +:+ ":" +:+ quoted "docs/1.pdf" +:+ ","
      +:+ quoted "user_id" +:+ ":" +:+ quoted "u1" +:+ ","
      +:+ quoted "screen_id" +:+ ":" +:+ quoted "s1" +:+ "}".

(** The body [{"s3Location":"docs/1.pdf","user_id":"u1"}]: no [screen_id]. *)
Definition body_no_screen : string :=
  "{" +:+ quoted "s3Location" +:+ ":" +:+ quoted "docs/1.pdf" +:+ ","
      +:+ quoted "user_id" +:+ ":" +:+ quoted "u1" +:+ "}".

(** The body [{"s3Location":"docs/1.pdf","user_id":"u2","screen_id":"s2"}]. *)
Definition body_A' : string :=
  "{" +:+ quoted "s3Location" +:+ ":" +:+ quoted "docs/1.pdf" +:+ ","
      +:+ quoted "user_id" +:+ ":" +:+ quoted "u2" +:+ ","
      +:+ quoted "screen_id" +:+ ":" +:+ quoted "s2" +:+ "}".

Definition payload (path userID screenID : string) : gmap string json :=
  <["s3Location" := JString path]>
    (<["user_id" := JString userID]> (<["screen_id" := JString screenID]> ∅)).

Definition B : bytes := [Byte.x25; Byte.x50; Byte.x44; Byte.x46].

(** The services of scenario A: every call succeeds.  The decoder knows
    the bodies above. *)
Definition services_A : Services := {|
  GetEnvVariable := fun key => if String.eqb key "AWS_REGION" then "eu-west-2" else "5";
  ParseDuration := fun s => if String.eqb s "5s" then Ok (5 * Second)
                            else Err "time: invalid duration";
  Unmarshal := fun data =>
    if String.eqb data body_A then Ok (payload "docs/1.pdf" "u1" "s1")
    else if String.eqb data body_A' then Ok (payload "docs/1.pdf" "u2" "s2")
    else if String.eqb data body_no_screen then
      Ok (<["s3Location" := JString "docs/1.pdf"]> (<["user_id" := JString "u1"]> ∅))
    else Err "invalid character";
  NewSession := fun region => Ok region;
  GetObject := fun _ _ key => Ok key;
  ReadAll := fun _ => (B, None);
  Close := fun _ => None;
  SendPDF2Grobid := fun _ => Ok "crude";
  TidyUpGrobidResponse := fun _ => Ok "10.1/x";
  CrossReferenceData := fun _ => Ok "crossref";
  TidyCrossRefData := fun crude => crude;
  ChangeMessageVisibility := fun _ _ _ _ => None
|}.

(** Scenario B: the object is not in the bucket. *)
Definition services_B : Services := {|
  GetEnvVariable := GetEnvVariable services_A;
  ParseDuration := ParseDuration services_A;
  Unmarshal := Unmarshal services_A;
  NewSession := NewSession services_A;
  GetObject := fun _ _ _ => Err "NoSuchKey";
  ReadAll := ReadAll services_A;
  Close := Close services_A;
  SendPDF2Grobid := SendPDF2Grobid services_A;
  TidyUpGrobidResponse := TidyUpGrobidResponse services_A;
  CrossReferenceData := CrossReferenceData services_A;
  TidyCrossRefData := TidyCrossRefData services_A;
  ChangeMessageVisibility := ChangeMessageVisibility services_A
|}.

(** The extraction succeeds and its response cannot be tidied. *)
Definition services_untidy : Services := {|
  GetEnvVariable := GetEnvVariable services_A;
  ParseDuration := ParseDuration services_A;
  Unmarshal := Unmarshal services_A;
  NewSession := NewSession services_A;
  GetObject := GetObject services_A;
  ReadAll := ReadAll services_A;
  Close := Close services_A;
  SendPDF2Grobid := SendPDF2Grobid services_A;
  TidyUpGrobidResponse := fun _ => Err "no TEI header";
  CrossReferenceData := CrossReferenceData services_A;
  TidyCrossRefData := TidyCrossRefData services_A;
  ChangeMessageVisibility := ChangeMessageVisibility services_A
|}.

(** Every call takes a millisecond. *)
Definition a_millisecond : cmd -> N := fun _ => 1000000%N.

Definition message_A : Message := mkMessage (Some body_A) (Some "rh-1").
Definition message_A' : Message := mkMessage (Some body_A') (Some "rh-1").
Definition message_no_screen : Message := mkMessage (Some body_no_screen) (Some "rh-2").

(** A clock reading of the year 2024, in nanoseconds from the zero [Time]. *)
Definition in_2024 : Time := 63840000000 * Second.

Definition instantly : cmd -> N := fun _ => 0%N.

Definition world_A : World := world_of services_A a_millisecond.
Definition world_B : World := world_of services_B a_millisecond.
Definition world_untidy : World := world_of services_untidy a_millisecond.
Definition world_A_instant : World := world_of services_A instantly.

(** The process one second after a stamp. *)
Definition a_second_after_a_stamp : Process :=
  mkProcess (in_2024 - Second) None in_2024 [].

(** One call of [processMessage] in the scenarios: worker 7, alone. *)
Definition process_in (w : World) (message : Message) (s : Process) : execution unit :=
  run w 0 (processMessage 7 message tt "https://sqs/q" "bucket" "eu-west-2" (5 * Second)) s.

(** Two workers and three messages. *)
Definition two_workers (queue : list Message) : Pool :=
  launch [(1, tt, "https://sqs/q", "bucket"); (2, tt, "https://sqs/q", "bucket")]
         in_2024 queue.

(** Worker 0 starts (5 steps) and processes a message to its end (21
    steps); a second later it takes the next message and falls asleep at
    the gate (9 steps); worker 1 starts and takes the lock (9 steps). *)
Definition schedule_asleep : list action :=
  (replicate 26 (Step 0) ++ [Tick 1000000000%N] ++ replicate 9 (Step 0)
   ++ replicate 9 (Step 1))%list.

Definition pool_asleep : Pool :=
  default (two_workers [message_A; message_A'; message_A])
          (play world_A_instant schedule_asleep
             (two_workers [message_A; message_A'; message_A])).

(** As above up to the sleep of worker 0; then six seconds pass, worker 1
    starts and goes through the gate (12 steps). *)
Definition schedule_passing : list action :=
  (replicate 26 (Step 0) ++ [Tick 1000000000%N] ++ replicate 9 (Step 0)
   ++ [Tick 6000000000%N] ++ replicate 12 (Step 1))%list.

(** Scenario C: both workers start and go through the gate before either
    stamps (24 steps); worker 0 finishes its message (14 steps); a second
    later it takes the third message up to the gate (9 steps). *)
Definition schedule_C_first : list action :=
  (replicate 5 (Step 0) ++ replicate 5 (Step 1) ++ replicate 7 (Step 0)
   ++ replicate 7 (Step 1))%list.
Definition schedule_C : list action :=
  (schedule_C_first ++ replicate 14 (Step 0) ++ [Tick 1000000000%N]
   ++ replicate 9 (Step 0))%list.

(** Worker 0 starts and receives the message without [screen_id]. *)
Definition schedule_no_screen : list action := replicate 8 (Step 0).

(** What a pool shows: the stamp, who holds the lock, the time since the
    start, and for each worker its next call and until when it sleeps. *)
Definition glance (P : Pool)
  : Time * option nat * Duration * list (option cmd * option Time) :=
  (lastRequestTime (process P), lastRequestTimeMu (process P),
   clock (process P) - in_2024,
   map (fun th => (next_call th, w_wake th)) (workers P)).

(** The session cannot be created. *)
Definition services_no_session : Services := {|
  GetEnvVariable := GetEnvVariable services_A;
  ParseDuration := ParseDuration services_A;
  Unmarshal := Unmarshal services_A;
  NewSession := fun _ => Err "NoCredentialProviders";
  GetObject := GetObject services_A;
  ReadAll := ReadAll services_A;
  Close := Close services_A;
  SendPDF2Grobid := SendPDF2Grobid services_A;
  TidyUpGrobidResponse := TidyUpGrobidResponse services_A;
  CrossReferenceData := CrossReferenceData services_A;
  TidyCrossRefData := TidyCrossRefData services_A;
  ChangeMessageVisibility := ChangeMessageVisibility services_A
|}.
Definition world_no_session : World := world_of services_no_session a_millisecond.

(** The stream is read to its end and cannot be closed. *)
Definition services_no_close : Services := {|
  GetEnvVariable := GetEnvVariable services_A;
  ParseDuration := ParseDuration services_A;
  Unmarshal := Unmarshal services_A;
  NewSession := NewSession services_A;
  GetObject := GetObject services_A;
  ReadAll := ReadAll services_A;
  Close := fun _ => Some "connection reset";
  SendPDF2Grobid := SendPDF2Grobid services_A;
  TidyUpGrobidResponse := TidyUpGrobidResponse services_A;
  CrossReferenceData := CrossReferenceData services_A;
  TidyCrossRefData := TidyCrossRefData services_A;
  ChangeMessageVisibility := ChangeMessageVisibility services_A
|}.
Definition world_no_close : World := world_of services_no_close a_millisecond.

(** The gap is configured as [five]. *)
Definition services_bad_gap : Services := {|
  GetEnvVariable := fun key => if String.eqb key "AWS_REGION" then "eu-west-2" else "five";
  ParseDuration := ParseDuration services_A;
  Unmarshal := Unmarshal services_A;
  NewSession := NewSession services_A;
  GetObject := GetObject services_A;
  ReadAll := ReadAll services_A;
  Close := Close services_A;
  SendPDF2Grobid := SendPDF2Grobid services_A;
  TidyUpGrobidResponse := TidyUpGrobidResponse services_A;
  CrossReferenceData := CrossReferenceData services_A;
  TidyCrossRefData := TidyCrossRefData services_A;
  ChangeMessageVisibility := ChangeMessageVisibility services_A
|}.
Definition world_bad_gap : World := world_of services_bad_gap a_millisecond.

(** A body that is not JSON. *)
Definition message_not_json : Message := mkMessage (Some "docs/1.pdf") (Some "rh-3").

(** Worker 0 starts and finds the gap misconfigured. *)
Definition schedule_bad_gap : list action := replicate 5 (Step 0).

(** ** Proof tools *)

(** The scrutinee on which the next call of a program waits. *)
Ltac blocker p :=
  lazymatch p with
  | bind ?q _ => blocker q
  | mbind _ ?q => blocker q
  | defer _ ?q => blocker q
  | match ?x with _ => _ end =>
    lazymatch x with
    | context [match _ with _ => _ end] => blocker x
    | _ => x
    end
  end.

Ltac open_functions :=
  unfold processMessage, assert_string, deref, createAWSSession,
    downloadFileFromS3, time_Since.

(** Walks every run of a program: takes each call's answer and duration,
    and splits on what the program inspects. *)
Ltac split_scrutinee :=
  match goal with
  | |- every_run _ _ _ ?p _ =>
    let x := blocker p in
    first [is_var x; destruct x | destruct x eqn:?]
  end.

Ltac explore :=
  repeat first [ progress intros | progress cbn | split_scrutinee ];
  repeat match goal with a : unit |- _ => destruct a end.

(** The same in a world whose answers are known: an answer already met
    is not split again. *)
Ltac split_known :=
  match goal with
  | |- every_run _ _ _ ?p _ =>
    let x := blocker p in
    first [ match goal with H : x = _ |- _ => rewrite H end
          | is_var x; destruct x
          | destruct x eqn:? ]
  end.

Ltac explore_known :=
  repeat first
    [ progress (intros;
                repeat match goal with
                       | H : answer_of _ _ ?a |- _ => red in H; subst a
                       end)
    | progress cbn
    | split_known ];
  repeat match goal with a : unit |- _ => destruct a end.

Ltac check_discipline :=
  repeat first
    [ progress cbn
    | match goal with
      | |- disciplined _ ?p =>
        let x := blocker p in first [is_var x; destruct x | destruct x eqn:?]
      end
    | split; [reflexivity|]
    | intros ?
    | reflexivity ].

(** Checks [stamps_known] along every path of a program. *)
Ltac check_stamps :=
  repeat first
    [ progress cbn
    | match goal with
      | |- stamps_known _ ?p =>
        let x := blocker p in first [is_var x; destruct x | destruct x eqn:?]
      end
    | split; [lia|]
    | intros ?
    | exact I ].

(** Picks a line of a log, any of them. *)
Ltac pick_line := (left; reflexivity) + (right; pick_line).

(** ** Durations *)

Lemma Time_Sub_range (t u : Time) : u <= t -> 0 <= Time_Sub t u <= maxDuration.
Proof. unfold Time_Sub, minDuration, maxDuration. lia. Qed.

Lemma Time_Sub_saturates (t : Time) :
  maxDuration <= t -> Time_Sub t zeroTime = maxDuration.
Proof. unfold Time_Sub, minDuration, maxDuration, zeroTime. lia. Qed.

Lemma Duration_sub_exact (a b : Duration) :
  is_Duration a -> 0 <= b -> b < a -> Duration_sub a b = a - b.
Proof.
  unfold is_Duration, Duration_sub, wrap64, minDuration, maxDuration.
  intros Ha Hb Hlt.
  rewrite Z.mod_small; lia.
Qed.

Lemma unixEpoch_past_maxDuration : maxDuration <= unixEpoch.
Proof. unfold maxDuration, unixEpoch, Second. lia. Qed.

Section Pipeline.
Context `{Ext : External}.

(** ** Every run *)

Lemma every_run_sound {R : Type} (A : forall c : cmd, resp c -> Prop) (w : World)
    (p : prog R) :
  (forall t c, A c (answer w t c)) ->
  forall (Q : execution R -> Prop) g s,
    every_run A Q g p s -> Q (run w g p s).
Proof.
  intros HA.
  induction p as [r|reason|code|c k IH]; intros Q g s HQ; cbn in *; try exact HQ.
  specialize (HQ (answer w (clock s) c) (latency w (clock s) c) (HA _ _)).
  unfold exec. destruct (took _ _) as [x s'| |reason]; try exact HQ.
  apply (IH x (fun x' => Q (logged (ev c x) x'))). exact HQ.
Qed.

Lemma every_run_any {R : Type} (w : World) (p : prog R) (Q : execution R -> Prop) g s :
  every_run any_answer Q g p s -> Q (run w g p s).
Proof. apply every_run_sound. intros; exact I. Qed.

(** ** The object fetch *)

(** C8.  [downloadFileFromS3] asks the storage for the object once, with
    the bucket and key it was given, and never again; every stream it
    opened it reads once and closes once, the close after the read, before
    it returns; and it returns: with no bytes and the error when
    [GetObject] or [ReadAll] failed, with the content read and no error
    otherwise. *)
Theorem downloadFileFromS3_releases_the_stream w g s3Svc bucket path s :
  let x := run w g (downloadFileFromS3 s3Svc bucket path) s in
  let tr := trace x in
  objects tr = [(bucket, path)]
  /\ streams_read tr = streams_opened tr
  /\ streams_closed tr = streams_opened tr
  /\ all_before is_ReadAll is_Close tr = true
  /\ match errors (fun e => is_GetObject e || is_ReadAll e) tr with
     | err :: _ => outcome_of x = Returned ([], Some err)
     | [] => exists content, contents tr = [content]
                             /\ outcome_of x = Returned (content, None)
     end.
Proof.
  intros x tr; subst tr x. apply every_run_any.
  open_functions. destruct s as [last mu now queue].
  explore; repeat split; eauto.
Qed.

(** ** The pipeline *)

(** C4.  In every run of [processMessage] the visibility extension is
    requested iff the fetch, the extraction, the normalization and the
    enrichment lookup were all made and succeeded.  Each stage is called
    only after the one before it succeeded, and once; and when a call of a
    stage fails (the decoding included), the function returns, the
    extension is not requested, and after the failed call nothing is
    called downstream but the close of the stream that was open. *)
Theorem processMessage_extended_iff_all_stages
    w g id message svc sqsURL s3Bucket awsRegion minGap s :
  let x := run w g (processMessage id message svc sqsURL s3Bucket awsRegion minGap) s in
  let tr := trace x in
  (extended tr = true <->
     fetched tr = true /\ extracted tr = true /\ normalized tr = true
     /\ enriched tr = true)
  /\ calls is_extract tr = (if fetched tr then 1 else 0)%nat
  /\ calls is_tidy tr = (if fetched tr && extracted tr then 1 else 0)%nat
  /\ calls is_enrich tr = (if fetched tr && extracted tr && normalized tr
                           then (if enriched tr then 2 else 1) else 0)%nat
  /\ calls is_extend tr = (if all_stages tr then 1 else 0)%nat
  /\ (existsb (fun e => is_stage_call e && failed e) tr = true ->
      outcome_of x = Returned tt
      /\ extended tr = false
      /\ forallb (fun e => is_Close e || negb (is_downstream e))
           (after_first (fun e => is_stage_call e && failed e) tr) = true).
Proof.
  intros x tr; subst tr x. apply every_run_any.
  open_functions. destruct s as [last [h|] now queue].
  all: explore.
  all: repeat split; try reflexivity; try discriminate;
    try solve [intuition discriminate].
Qed.

(** C6.  When the enrichment lookup of a message succeeded, the
    visibility extension is requested exactly once, on the queue of the
    worker, with the receipt handle of the message and 30 seconds;
    [processMessage] returns; and when the request failed, the last line
    logged is that failure. *)
Theorem visibility_extended_once
    w g id message svc sqsURL s3Bucket awsRegion minGap s :
  let x := run w g (processMessage id message svc sqsURL s3Bucket awsRegion minGap) s in
  let tr := trace x in
  enriched tr = true ->
  extensions tr = [(svc, sqsURL, ReceiptHandle message, 30)]
  /\ outcome_of x = Returned tt
  /\ match errors is_extend tr with
     | err :: _ =>
       last (lines tr)
       = Some [AStr "Error putting message back to the queue:"; AErr err]
     | [] => all_before is_log is_extend tr = true
     end.
Proof.
  intros x tr; subst tr x. apply every_run_any.
  open_functions. destruct s as [last [h|] now queue].
  all: explore.
  all: try done; repeat split; try done.
Qed.

(** ** The stamp *)

(** C9.  A run of [processMessage] writes [lastRequestTime] once when
    the fetch, the extraction, the normalization and the enrichment lookup
    all succeeded, and never otherwise; in a run where one of them failed
    or was not reached, [lastRequestTime] is at the end what it was at the
    start. *)
Theorem stamp_only_after_all_stages
    w g id message svc sqsURL s3Bucket awsRegion minGap s :
  let x := run w g (processMessage id message svc sqsURL s3Bucket awsRegion minGap) s in
  let tr := trace x in
  calls is_stamp tr = (if all_stages tr then 1 else 0)%nat
  /\ (all_stages tr = false -> lastRequestTime (final x) = lastRequestTime s).
Proof.
  intros x tr; subst tr x. apply every_run_any.
  open_functions. destruct s as [last [h|] now queue].
  all: explore.
  all: split; try reflexivity; try discriminate.
Qed.

(** C3, as amended.  When the fetch, the extraction, the normalization
    and the enrichment lookup all succeeded, [lastRequestTime] is stamped
    once, with the reading of the clock taken just before, after the
    enrichment calls and before the visibility extension; in every other
    run, also when the extraction succeeded and a later stage failed,
    nothing is stamped and [lastRequestTime] is unchanged. *)
Theorem stamp_after_enrichment
    w g id message svc sqsURL s3Bucket awsRegion minGap s :
  let x := run w g (processMessage id message svc sqsURL s3Bucket awsRegion minGap) s in
  let tr := trace x in
  if all_stages tr
  then exists t, stamps tr = [t]
                 /\ last (clock_readings tr) = Some t
                 /\ lastRequestTime (final x) = t
                 /\ clock s <= t
                 /\ all_before is_enrich is_stamp tr = true
                 /\ all_before is_stamp is_extend tr = true
  else stamps tr = [] /\ lastRequestTime (final x) = lastRequestTime s.
Proof.
  intros x tr; subst tr x. apply every_run_any.
  open_functions. destruct s as [last [h|] now queue].
  all: explore.
  all: try (split; reflexivity).
  all: eexists; repeat split; lia.
Qed.

(** ** The rate gate *)

(** C2, as amended.  In every run of [processMessage] the acquire step
    (the read of [lastRequestTime] and the sleep) comes before every
    downstream call: the session, the storage fetch, the extraction, the
    normalization, the enrichment and the extension.  It is made at most
    once, it sleeps at most once, and a run that calls downstream at all
    has made it. *)
Theorem acquire_before_every_downstream_call
    w g id message svc sqsURL s3Bucket awsRegion minGap s :
  let x := run w g (processMessage id message svc sqsURL s3Bucket awsRegion minGap) s in
  let tr := trace x in
  all_before is_acquire is_downstream tr = true
  /\ (calls is_read tr <= 1)%nat
  /\ (calls is_sleep tr <= calls is_read tr)%nat
  /\ (existsb is_downstream tr = true -> calls is_read tr = 1%nat).
Proof.
  intros x tr; subst tr x. apply every_run_any.
  open_functions. destruct s as [last [h|] now queue].
  all: explore.
  all: repeat split; try reflexivity; try discriminate; try lia.
Qed.

(** C5.  With [minGap] a [Duration] and a clock that is not behind the
    last stamp: a run that reaches the gate reads [lastRequestTime] and
    then the clock; with [elapsed] the clock reading minus the stamp (as
    [Time.Sub] gives it), it sleeps once, for [minGap - elapsed], when
    [elapsed < minGap], and does not sleep otherwise.  When the stamp is
    still the zero [Time] and the clock is [maxDuration] or more past it
    (any date from the year 293 on), it does not sleep, whatever
    [minGap]. *)
Theorem gate_sleeps_for_the_remainder
    w g id message svc sqsURL s3Bucket awsRegion minGap s :
  is_Duration minGap -> lastRequestTime s <= clock s ->
  let x := run w g (processMessage id message svc sqsURL s3Bucket awsRegion minGap) s in
  let tr := trace x in
  match timestamp_reads tr with
  | [] => sleeps tr = []
  | last :: _ =>
    exists now,
      head (clock_readings tr) = Some now
      /\ last = lastRequestTime s
      /\ clock s <= now
      /\ sleeps tr = (if Time_Sub now last <? minGap
                      then [minGap - Time_Sub now last] else [])
      /\ (last = zeroTime -> maxDuration <= clock s -> sleeps tr = [])
  end.
Proof.
  intros HminGap Hclock x tr; subst tr x. apply every_run_any.
  open_functions. destruct s as [last [h|] now queue].
  all: explore.
  all: try done.
  all: eexists; split; [reflexivity|]; split; [reflexivity|];
    split; [cbn in Hclock; lia|].
  all: cbn in Hclock.
  all: match goal with
       | Hb : (_ <? _) = true |- _ => rewrite Hb; apply Z.ltb_lt in Hb
       | Hb : (_ <? _) = false |- _ => rewrite Hb; apply Z.ltb_ge in Hb
       end.
  all: split;
    [ first [ reflexivity
            | f_equal; apply Duration_sub_exact;
              [assumption | apply Time_Sub_range; lia | assumption] ]
    | intros -> Hmax;
      first [ reflexivity
            | exfalso;
              match goal with
              | Hb : Time_Sub _ zeroTime < _ |- _ =>
                rewrite Time_Sub_saturates in Hb by lia
              end;
              unfold is_Duration in HminGap; lia ] ].
Qed.

(** ** What reaches the services *)

(** C10.  Take two messages with the same receipt handle whose bodies
    decode to payloads that hold the same string at [s3Location] and
    strings at [user_id] and [screen_id], in a world that answers a call
    the same way whenever it is made.  Their runs make the same
    downstream calls, with the same arguments and results.  In each the
    only object asked of the storage is the [s3Location] in the configured
    bucket, the files sent to the extraction are the contents read, the
    identifiers looked up are those of the tidied extractions, and the one
    extension is for the receipt handle. *)
Theorem identifiers_never_reach_downstream
    (w : World) g id svc sqsURL s3Bucket awsRegion minGap s
    (m1 m2 : Message) (b1 b2 : string) (p1 p2 : gmap string json)
    (path user1 screen1 user2 screen2 : string) :
  timeless w ->
  Body m1 = Some b1 -> Body m2 = Some b2 ->
  ReceiptHandle m1 = ReceiptHandle m2 ->
  answer w zeroTime (json_Unmarshal b1) = Ok p1 ->
  answer w zeroTime (json_Unmarshal b2) = Ok p2 ->
  p1 !! "s3Location" = Some (JString path) ->
  p2 !! "s3Location" = Some (JString path) ->
  p1 !! "user_id" = Some (JString user1) ->
  p1 !! "screen_id" = Some (JString screen1) ->
  p2 !! "user_id" = Some (JString user2) ->
  p2 !! "screen_id" = Some (JString screen2) ->
  let x1 := run w g (processMessage id m1 svc sqsURL s3Bucket awsRegion minGap) s in
  let x2 := run w g (processMessage id m2 svc sqsURL s3Bucket awsRegion minGap) s in
  (objects (trace x1)
   = if existsb is_GetObject (trace x1) then [(s3Bucket, path)] else [])
  /\ files_sent (trace x1) = contents (trace x1)
  /\ dois_looked_up (trace x1) = dois_extracted (trace x1)
  /\ (extensions (trace x1)
      = if enriched (trace x1) then [(svc, sqsURL, ReceiptHandle m1, 30)] else [])
  /\ List.filter is_downstream (trace x1) = List.filter is_downstream (trace x2).
Proof.
  intros Hw HB1 HB2 Hrh H1 H2 Hp1 Hp2 Hu1 Hs1 Hu2 Hs2 x1 x2.
  subst x1. remember x2 as y2 eqn:Hy2. subst x2.
  apply (every_run_sound (answer_of w) w _ Hw).
  open_functions. rewrite Hrh. destruct s as [last [h|] now queue].
  all: explore_known.
  all: repeat (split; [reflexivity|]).
  all: rewrite Hy2;
    match goal with
    | |- ?L = _ =>
      apply (every_run_sound (answer_of w) w _ Hw
               (fun x2 => L = List.filter is_downstream (trace x2)))
    end;
    open_functions; explore_known; reflexivity.
Qed.

(** A payload in which one of the three fields is missing or is not a
    string: the type assertion panics, after the decoding and before
    anything else. *)
Lemma undecodable_fields_panic
    w g id message svc sqsURL s3Bucket awsRegion minGap s body msgData :
  Body message = Some body ->
  answer w (clock s) (json_Unmarshal body) = Ok msgData ->
  (forall path, msgData !! "s3Location" <> Some (JString path))
  \/ (forall userID, msgData !! "user_id" <> Some (JString userID))
  \/ (forall screenID, msgData !! "screen_id" <> Some (JString screenID)) ->
  let x := run w g (processMessage id message svc sqsURL s3Bucket awsRegion minGap) s in
  outcome_of x = Panicked "interface conversion: interface {} is not string"
  /\ trace x = [ev (json_Unmarshal body) (Ok msgData)].
Proof.
  intros HB Hdec Hbad. open_functions. rewrite HB. cbn. unfold exec. cbn.
  rewrite Hdec. cbn.
  destruct (msgData !! "s3Location") as [[]|]; cbn; try (split; reflexivity);
    destruct (msgData !! "user_id") as [[]|]; cbn; try (split; reflexivity);
    destruct (msgData !! "screen_id") as [[]|]; cbn; try (split; reflexivity).
  exfalso. destruct Hbad as [Hb|[Hb|Hb]]; eapply Hb; reflexivity.
Qed.

End Pipeline.

(** ** The lock in the pool *)

Section Pool.
Context `{Ext : External}.

Lemma processMessage_disciplined id message svc sqsURL s3Bucket awsRegion minGap :
  disciplined false (processMessage id message svc sqsURL s3Bucket awsRegion minGap).
Proof. open_functions. check_discipline. Qed.

Lemma Worker_iteration_disciplined id svc sqsURL s3Bucket awsRegion minGap :
  disciplined false (Worker_iteration id svc sqsURL s3Bucket awsRegion minGap).
Proof.
  unfold Worker_iteration. cbn. split; [reflexivity|]. intros message.
  apply processMessage_disciplined.
Qed.

Lemma Worker_start_disciplined id : disciplined false (Worker_start id).
Proof. unfold Worker_start, log_Fatalf. check_discipline. Qed.

(** The mutex after a command, from the mutex before. *)
Lemma effect_mutex g c a s x s' :
  effect g c a s = Went x s' ->
  lastRequestTimeMu s' =
    match c with
    | Mu_Lock => Some g
    | Mu_Unlock => None
    | _ => lastRequestTimeMu s
    end
  /\ (c = Mu_Lock -> lastRequestTimeMu s = None).
Proof.
  destruct s as [last mu now queue].
  destruct c; cbn; try (intros [= <- <-]; split; [reflexivity|discriminate]).
  - destruct queue; [discriminate|]. intros [= <- <-]. split; [reflexivity|discriminate].
  - destruct mu; [discriminate|]. intros [= <- <-]. split; reflexivity.
  - destruct mu; [|discriminate]. intros [= <- <-]. split; [reflexivity|discriminate].
Qed.

Lemma move_goes {R : Type} w g (p : prog R) s p' s' nap :
  move w g p s = Some (Goes p' s' nap) ->
  exists c k x, p = Vis c k /\ p' = k x
    /\ lastRequestTimeMu s' =
         match c with
         | Mu_Lock => Some g
         | Mu_Unlock => None
         | _ => lastRequestTimeMu s
         end
    /\ (c = Mu_Lock -> lastRequestTimeMu s = None)
    /\ (is_Some nap -> exists d, c = time_Sleep d).
Proof.
  destruct p as [r|reason|code|c k]; cbn; try discriminate.
  intros Hm. exists c, k.
  assert (Hgen : forall a, match effect g c a s with
                           | Went x s' => Some (Goes (k x) s' None)
                           | Waits => None
                           | Throws _ => Some Dies
                           end = Some (Goes p' s' nap) ->
                 exists x, p' = k x
                   /\ lastRequestTimeMu s' =
                        match c with
                        | Mu_Lock => Some g
                        | Mu_Unlock => None
                        | _ => lastRequestTimeMu s
                        end
                   /\ (c = Mu_Lock -> lastRequestTimeMu s = None)
                   /\ (is_Some nap -> exists d, c = time_Sleep d)).
  { intros a Ha. destruct (effect g c a s) as [x s1| |] eqn:He; try discriminate.
    injection Ha as <- <- <-. exists x.
    destruct (effect_mutex _ _ _ _ _ _ He) as [Hmu Hfree].
    repeat split; auto. intros [? [=]]. }
  destruct c;
    try (destruct (Hgen (answer w (clock s) _) Hm) as (x & ? & ? & ? & ?);
         exists x; repeat split; assumption).
  injection Hm as <- <- <-. exists tt. repeat split; eauto. discriminate.
Qed.


Lemma holds_spec (P : Pool) g :
  holds P g = true <-> lastRequestTimeMu (process P) = Some g.
Proof. unfold holds. apply bool_decide_eq_true. Qed.

Lemma launch_invariant ws now queue : lock_invariant (launch ws now queue).
Proof.
  split.
  - intros g th Hth. cbn in Hth.
    apply list_lookup_fmap_Some in Hth as ([[[id svc] sqsURL] s3Bucket] & -> & _).
    split; [apply Worker_start_disciplined | discriminate].
  - discriminate.
Qed.


Lemma mutex_advance d s : lastRequestTimeMu (advance d s) = lastRequestTimeMu s.
Proof. destruct s; reflexivity. Qed.

(** Goroutine [g] moves, the others stay. *)
Lemma invariant_update (P : Pool) g th th' s' b :
  lock_invariant P ->
  workers P !! g = Some th ->
  (forall g', g' <> g ->
     lastRequestTimeMu s' = Some g' <-> lastRequestTimeMu (process P) = Some g') ->
  code_disciplined (bool_decide (lastRequestTimeMu s' = Some g)) (w_phase th') ->
  (lastRequestTimeMu s' = Some g -> w_wake th' = None) ->
  lock_invariant (mkPool s' (<[g := th']> (workers P)) b).
Proof.
  intros [Hcode Hin] Hth Hothers Hdisc Hawake. split.
  - intros g' t Ht. cbn in Ht. unfold holds; cbn.
    destruct (decide (g' = g)) as [->|Hne].
    + rewrite list_lookup_insert_eq in Ht by (eapply lookup_lt_Some; eauto).
      injection Ht as <-. split; [assumption|].
      intros Hh%bool_decide_eq_true. auto.
    + rewrite list_lookup_insert_ne in Ht by congruence.
      destruct (Hcode g' t Ht) as [Hd Hw]. unfold holds in Hd, Hw.
      rewrite (bool_decide_ext _ _ (Hothers g' Hne)). auto.
  - intros g' Hg'. cbn in *.
    destruct (decide (g' = g)) as [->|Hne].
    + rewrite list_lookup_insert_eq by (eapply lookup_lt_Some; eauto). eauto.
    + rewrite list_lookup_insert_ne by congruence.
      apply Hin, Hothers; assumption.
Qed.

Lemma invariant_same_process (P : Pool) g th th' b :
  lock_invariant P ->
  workers P !! g = Some th ->
  code_disciplined (holds P g) (w_phase th') ->
  (holds P g = true -> w_wake th' = None) ->
  lock_invariant (mkPool (process P) (<[g := th']> (workers P)) b).
Proof.
  intros HP Hth Hd Hw. eapply invariant_update; eauto.
  intros Hh. apply Hw, holds_spec, Hh.
Qed.

Lemma invariant_move {R : Type} (P : Pool) w g th (p : prog R) (wrap : prog R -> phase)
    p' s' nap b :
  lock_invariant P ->
  workers P !! g = Some th ->
  (forall held q, code_disciplined held (wrap q) = disciplined held q) ->
  w_phase th = wrap p ->
  move w g p (process P) = Some (Goes p' s' nap) ->
  lock_invariant (mkPool s' (<[g := set_phase (wrap p') nap th]> (workers P)) b).
Proof.
  intros HP Hth Hwrap Hph Hm.
  destruct (move_goes _ _ _ _ _ _ _ Hm) as (c & k & x & -> & -> & Hmu & Hfree & Hnap).
  destruct HP as [Hcode Hin].
  destruct (Hcode g th Hth) as [Hd _]. rewrite Hph, Hwrap in Hd.
  destruct Hd as [Hperm Hk]. specialize (Hk x).
  eapply invariant_update; [split; eassumption | eassumption | | |].
  - intros g' Hne. rewrite Hmu. destruct c; try tauto.
    + rewrite (Hfree eq_refl). split; congruence.
    + destruct (holds P g) eqn:Hh; [|discriminate].
      apply holds_spec in Hh. rewrite Hh. split; congruence.
  - cbn. rewrite Hwrap, Hmu.
    assert (bool_decide (match c with
                         | Mu_Lock => Some g
                         | Mu_Unlock => None
                         | _ => lastRequestTimeMu (process P)
                         end = Some g) = holds_after (holds P g) c) as ->;
      [|assumption].
    destruct c; try reflexivity.
    + apply bool_decide_eq_true; reflexivity.
  - cbn. intros Hg. destruct nap as [t|]; [|reflexivity].
    destruct Hnap as [d ->]; [eauto|].
    rewrite Hmu in Hg. apply holds_spec in Hg. rewrite Hg in Hperm. discriminate.
Qed.

Lemma invariant_dies (P : Pool) : lock_invariant P ->
  lock_invariant (mkPool (process P) (workers P) false).
Proof. intros HP. exact HP. Qed.

Lemma fire_invariant w a P P' :
  lock_invariant P -> fire w a P = Some P' -> lock_invariant P'.
Proof.
  intros HP. unfold fire. destruct (alive P); [|discriminate].
  destruct a as [g|d].
  - destruct (workers P !! g) as [th|] eqn:Hth; [|discriminate]. cbn.
    pose proof HP as [Hcode _]. destruct (Hcode g th Hth) as [Hd Hw].
    destruct (w_wake th) as [t|] eqn:Hwake.
    { case_bool_decide; [|discriminate]. intros [= <-].
      apply (invariant_same_process P g th); auto. }
    destruct (w_phase th) as [p|awsRegion minGap p] eqn:Hph.
    + destruct p as [[awsRegion minGap]|reason|code|c k] eqn:Hp.
      * intros [= <-]. cbn in Hd.
        apply (invariant_same_process P g th); auto.
        rewrite Hd. apply Worker_iteration_disciplined.
      * intros [= <-]. apply invariant_dies, HP.
      * intros [= <-]. apply invariant_dies, HP.
      * rewrite <- Hp. destruct (move w g p (process P)) as [[p' s' nap|]|] eqn:Hm;
          intros [= <-]; [|apply invariant_dies, HP].
        rewrite <- Hp in Hph. apply (invariant_move P w g th p Starting); auto.
    + destruct p as [[]|reason|code|c k] eqn:Hp.
      * intros [= <-]. cbn in Hd.
        apply (invariant_same_process P g th); auto.
        rewrite Hd. apply Worker_iteration_disciplined.
      * intros [= <-]. apply invariant_dies, HP.
      * intros [= <-]. apply invariant_dies, HP.
      * rewrite <- Hp. destruct (move w g p (process P)) as [[p' s' nap|]|] eqn:Hm;
          intros [= <-]; [|apply invariant_dies, HP].
        rewrite <- Hp in Hph.
        apply (invariant_move P w g th p (Looping awsRegion minGap)); auto.
  - intros [= <-]. destruct HP as [Hcode Hin]. split.
    + intros g th Hth. unfold holds; cbn. rewrite mutex_advance. apply Hcode, Hth.
    + intros g. cbn. rewrite mutex_advance. apply Hin.
Qed.

Lemma reachable_invariant P0 P :
  lock_invariant P0 -> reachable P0 P -> lock_invariant P.
Proof.
  intros H0 Hreach. induction Hreach as [|P1 P2 P3 (w & a & Hfire) _ IH]; [assumption|].
  apply IH. eapply fire_invariant; eauto.
Qed.

Lemma play_reachable w sched : forall P P',
  play w sched P = Some P' -> reachable P P'.
Proof.
  induction sched as [|a sched IH]; intros P P'; cbn.
  - intros [= <-]. apply rtc_refl.
  - destruct (fire w a P) as [P1|] eqn:Hfire; [|discriminate]. cbn.
    intros HP'. eapply rtc_l; [exists w, a; exact Hfire | apply IH, HP'].
Qed.


(** The pool a schedule leads to, when the schedule can be played. *)
Lemma play_default_reachable w sched (P : Pool) :
  match play w sched P with Some _ => true | None => false end = true ->
  reachable P (default P (play w sched P)).
Proof.
  destruct (play w sched P) as [P'|] eqn:Hplay; [|discriminate].
  intros _. cbn. apply (play_reachable w sched), Hplay.
Qed.

Lemma next_call_code (th : Goroutine) c :
  next_call th = Some c ->
  w_wake th = None
  /\ ((exists k, w_phase th = Starting (Vis c k))
      \/ (exists awsRegion minGap k, w_phase th = Looping awsRegion minGap (Vis c k))).
Proof.
  unfold next_call. destruct (w_wake th); [discriminate|].
  destruct (w_phase th) as [p|awsRegion minGap p]; destruct p; cbn; try discriminate;
    intros [= ->]; split; eauto.
Qed.

Lemma next_call_permitted (P : Pool) g th c :
  lock_invariant P -> workers P !! g = Some th -> next_call th = Some c ->
  permitted (holds P g) c = true.
Proof.
  intros [Hcode _] Hth Hc. destruct (Hcode g th Hth) as [Hd _].
  destruct (next_call_code th c Hc) as [_ [[k Hph]|(r & m & k & Hph)]];
    rewrite Hph in Hd; apply Hd.
Qed.

Lemma fire_enabled w (P : Pool) g th c :
  alive P = true -> workers P !! g = Some th -> next_call th = Some c ->
  falls_asleep c = true \/
    (exists x s', effect g c (answer w (clock (process P)) c) (process P) = Went x s') ->
  is_Some (fire w (Step g) P).
Proof.
  intros Halive Hth Hc Hen. unfold fire. rewrite Halive, Hth. cbn.
  destruct (next_call_code th c Hc) as [-> [[k ->]|(r & m & k & ->)]]; cbn.
  all: destruct Hen as [Hs|(x & s' & He)];
    [ destruct c; try discriminate; cbn; eauto
    | destruct c; cbn in *; try rewrite He; cbn; eauto ].
Qed.

(** C7.  In every state the pool can reach from its launch: a goroutine
    whose next call reads or writes [lastRequestTime] holds the lock; a
    goroutine that is asleep, or about to call [time.Sleep], does not.
    Whoever holds the lock is awake, and its next call is the read, the
    write, the clock or the unlock, which it can make at once: nobody
    waits for the lock on a sleeper.  And a goroutine whose next call is
    [Lock] makes it as soon as the lock is free, whoever sleeps. *)
Theorem sleeping_worker_never_holds_the_lock ws now queue (P : Pool) :
  reachable (launch ws now queue) P ->
  (forall g th, workers P !! g = Some th ->
     (is_Some (w_wake th) -> lastRequestTimeMu (process P) <> Some g)
     /\ (forall c, next_call th = Some c ->
          (touches_timestamp c = true -> lastRequestTimeMu (process P) = Some g)
          /\ (falls_asleep c = true -> lastRequestTimeMu (process P) <> Some g)))
  /\ (forall g, lastRequestTimeMu (process P) = Some g -> alive P = true ->
      exists th c, workers P !! g = Some th /\ next_call th = Some c
                   /\ in_section c = true
                   /\ forall w, is_Some (fire w (Step g) P))
  /\ (forall g th, workers P !! g = Some th -> alive P = true ->
      next_call th = Some Mu_Lock -> lastRequestTimeMu (process P) = None ->
      forall w, is_Some (fire w (Step g) P)).
Proof.
  intros Hreach.
  pose proof (reachable_invariant _ _ (launch_invariant ws now queue) Hreach) as HP.
  pose proof HP as [Hcode Hin].
  split; [|split].
  - intros g th Hth. destruct (Hcode g th Hth) as [Hd Hw]. split.
    + intros [t Ht] Hg. apply holds_spec in Hg. rewrite (Hw Hg) in Ht. discriminate.
    + intros c Hc. pose proof (next_call_permitted P g th c HP Hth Hc) as Hperm.
      split.
      * intros Htouch. apply holds_spec.
        destruct (holds P g); [reflexivity|]. destruct c; discriminate.
      * intros Hsleep Hg. apply holds_spec in Hg. rewrite Hg in Hperm.
        destruct c; discriminate.
  - intros g Hg Halive. destruct (Hin g Hg) as [th Hth].
    destruct (Hcode g th Hth) as [Hd Hw].
    pose proof Hg as Hh. apply holds_spec in Hh. rewrite Hh in Hd. specialize (Hw Hh).
    assert (exists c, next_call th = Some c /\ in_section c = true) as (c & Hc & Hsec).
    { unfold next_call. rewrite Hw.
      destruct (w_phase th) as [p|r m p]; destruct p; cbn in Hd; try discriminate;
        destruct Hd as [Hperm _]; eauto. }
    exists th, c. repeat split; try assumption.
    intros w. apply (fire_enabled w P g th c Halive Hth Hc). right.
    destruct (process P) as [last mu t q]; cbn in Hg; subst mu.
    destruct c; try discriminate; cbn; eauto.
  - intros g th Hth Halive Hc Hfree w.
    apply (fire_enabled w P g th Mu_Lock Halive Hth Hc). right.
    destruct (process P) as [last mu t q]; cbn in Hfree; subst mu. cbn. eauto.
Qed.

End Pool.

(** ** The scenarios, evaluated *)

(** Scenario A: every call succeeds; the extension is requested once, for
    the receipt handle of the message and 30 seconds. *)
Example scenario_A :
  let x := process_in world_A message_A (boot in_2024 []) in
  outcome_of x = Returned tt
  /\ all_stages (trace x) = true
  /\ files_sent (trace x) = [B]
  /\ dois_looked_up (trace x) = ["10.1/x"]
  /\ extensions (trace x) = [(tt, "https://sqs/q", Some "rh-1", 30)]
  /\ sleeps (trace x) = [].
Proof. vm_compute. repeat split. Qed.

(** Scenario B: the object is not found; nothing is called after the
    fetch. *)
Example scenario_B :
  let x := process_in world_B message_A (boot in_2024 []) in
  outcome_of x = Returned tt
  /\ objects (trace x) = [("bucket", "docs/1.pdf")]
  /\ errors is_GetObject (trace x) = ["NoSuchKey"]
  /\ calls is_extract (trace x) = 0%nat
  /\ calls is_tidy (trace x) = 0%nat
  /\ calls is_enrich (trace x) = 0%nat
  /\ calls is_extend (trace x) = 0%nat
  /\ lastRequestTime (final x) = zeroTime.
Proof. vm_compute. repeat split. Qed.

(** Scenario C: two workers reach the gate before either has stamped;
    neither sleeps, both go on to the storage.  Once worker 0 has stamped,
    a third message taken a second later makes it sleep four seconds. *)
Example scenario_C :
  glance <$> play world_A_instant schedule_C_first
               (two_workers [message_A; message_A'; message_A])
  = Some (zeroTime, None, 0,
          [(Some (session_NewSession "eu-west-2"), None);
           (Some (session_NewSession "eu-west-2"), None)])
  /\ glance <$> play world_A_instant schedule_C
                  (two_workers [message_A; message_A'; message_A])
     = Some (in_2024, None, Second,
             [(None, Some (in_2024 + 5 * Second));
              (Some (session_NewSession "eu-west-2"), None)]).
Proof. vm_compute. split; reflexivity. Qed.

(** While worker 0 sleeps at the gate, worker 1, arriving after the gap,
    goes through it at once. *)
Example passes_while_another_sleeps :
  glance <$> play world_A_instant schedule_passing
               (two_workers [message_A; message_A'; message_A])
  = Some (in_2024, None, 7 * Second,
          [(None, Some (in_2024 + 5 * Second));
           (Some (session_NewSession "eu-west-2"), None)]).
Proof. vm_compute. reflexivity. Qed.

(** ** The claims at the scenarios *)

(** C1.  The body [{"s3Location":"docs/1.pdf","user_id":"u1"}] decodes,
    and has no [screen_id]: [processMessage] does not return a decode
    error, it panics on the type assertion; it has made no downstream
    call and logged nothing.  In a pool of two workers the panic of the
    worker that received the message ends the process. *)
Theorem missing_screen_id_panics :
  let x := process_in world_A message_no_screen (boot in_2024 []) in
  outcome_of x = Panicked "interface conversion: interface {} is not string"
  /\ errors is_Unmarshal (trace x) = []
  /\ calls is_downstream (trace x) = 0%nat
  /\ lines (trace x) = []
  /\ alive <$> play world_A_instant schedule_no_screen
                 (two_workers [message_no_screen; message_A])
     = Some false.
Proof. vm_compute. repeat split. Qed.

(** C2 fails as stated.  In scenario A one second after a stamp, the
    object is fetched, and the acquire step (the read of the stamp and
    the sleep of four seconds) comes before the fetch, not between the
    fetch and the extraction. *)
Lemma acquire_precedes_the_fetch :
  let x := process_in world_A_instant message_A a_second_after_a_stamp in
  fetched (trace x) = true
  /\ sleeps (trace x) = [4 * Second]
  /\ all_before is_fetch is_acquire (trace x) = false
  /\ all_before is_acquire is_fetch (trace x) = true.
Proof. vm_compute. repeat split. Qed.

(** C3 fails as stated.  When the extraction succeeds and its response
    cannot be tidied, the extraction call has returned and nothing is
    stamped: [lastRequestTime] is still the zero [Time]. *)
Lemma no_stamp_after_extraction_alone :
  let x := process_in world_untidy message_A (boot in_2024 []) in
  extracted (trace x) = true
  /\ normalized (trace x) = false
  /\ stamps (trace x) = []
  /\ lastRequestTime (final x) = zeroTime.
Proof. vm_compute. repeat split. Qed.

Lemma visibility_extended_once_in_scenario_A :
  let x := process_in world_A message_A (boot in_2024 []) in
  enriched (trace x) = true
  /\ (extensions (trace x) = [(tt, "https://sqs/q", Some "rh-1", 30)]
      /\ outcome_of x = Returned tt
      /\ match errors is_extend (trace x) with
         | err :: _ =>
           last (lines (trace x))
           = Some [AStr "Error putting message back to the queue:"; AErr err]
         | [] => all_before is_log is_extend (trace x) = true
         end).
Proof.
  split; [vm_compute; reflexivity|].
  apply (visibility_extended_once world_A 0 7 message_A tt "https://sqs/q"
           "bucket" "eu-west-2" (5 * Second) (boot in_2024 [])).
  vm_compute; reflexivity.
Defined.

Lemma gate_sleeps_a_second_after_a_stamp :
  let x := process_in world_A_instant message_A a_second_after_a_stamp in
  is_Duration (5 * Second)
  /\ lastRequestTime a_second_after_a_stamp <= clock a_second_after_a_stamp
  /\ match timestamp_reads (trace x) with
     | [] => sleeps (trace x) = []
     | last :: _ =>
       exists now,
         head (clock_readings (trace x)) = Some now
         /\ last = lastRequestTime a_second_after_a_stamp
         /\ clock a_second_after_a_stamp <= now
         /\ sleeps (trace x) = (if Time_Sub now last <? 5 * Second
                                then [5 * Second - Time_Sub now last] else [])
         /\ (last = zeroTime -> maxDuration <= clock a_second_after_a_stamp ->
             sleeps (trace x) = [])
     end.
Proof.
  split; [|split].
  - vm_compute. split; discriminate.
  - vm_compute. discriminate.
  - apply (gate_sleeps_for_the_remainder world_A_instant 0 7 message_A tt
             "https://sqs/q" "bucket" "eu-west-2" (5 * Second)
             a_second_after_a_stamp).
    + vm_compute. split; discriminate.
    + vm_compute. discriminate.
Defined.

Lemma identifiers_never_reach_downstream_in_scenario_A :
  let x1 := process_in world_A message_A (boot in_2024 []) in
  let x2 := process_in world_A message_A' (boot in_2024 []) in
  timeless world_A
  /\ List.filter is_downstream (trace x1) = List.filter is_downstream (trace x2).
Proof.
  assert (Hw : timeless world_A) by (intros t c; reflexivity).
  split; [exact Hw|].
  apply (identifiers_never_reach_downstream world_A 0 7 tt "https://sqs/q"
           "bucket" "eu-west-2" (5 * Second) (boot in_2024 [])
           message_A message_A' body_A body_A'
           (payload "docs/1.pdf" "u1" "s1") (payload "docs/1.pdf" "u2" "s2")
           "docs/1.pdf" "u1" "s1" "u2" "s2");
    first [exact Hw | vm_compute; reflexivity].
Defined.

Lemma lock_free_of_the_sleeper :
  reachable (two_workers [message_A; message_A'; message_A]) pool_asleep
  /\ glance pool_asleep
     = (in_2024, Some 1%nat, Second,
        [(None, Some (in_2024 + 5 * Second)); (Some load_lastRequestTime, None)])
  /\ is_Some (fire world_A_instant (Step 1) pool_asleep).
Proof.
  assert (Hreach : reachable (two_workers [message_A; message_A'; message_A])
                     pool_asleep).
  { apply (play_default_reachable world_A_instant schedule_asleep).
    vm_compute. reflexivity. }
  split; [exact Hreach|]. split; [vm_compute; reflexivity|].
  destruct (sleeping_worker_never_holds_the_lock _ _ _ _ Hreach) as (_ & Hholder & _).
  destruct (Hholder 1%nat) as (th & c & _ & _ & _ & Hfire);
    [vm_compute; reflexivity | vm_compute; reflexivity | apply Hfire].
Defined.

(** ** More of the worker, one goroutine alone *)

Section Alone.
Context `{Ext : External}.

Lemma unit_eq (a b : unit) : a = b.
Proof. destruct a, b. reflexivity. Qed.

(** The start of [Worker] asks the environment for [AWS_REGION] and then
    for [MINIMUM_GAP_BETWEEN_REQUESTS_SECONDS], and parses the second value
    with [s] appended.  When the parse fails it logs the error and exits
    the process with status 1; otherwise it logs that the worker starts and
    goes on with the region and the duration parsed.  It receives no
    message before. *)
Theorem Worker_start_reads_the_configuration w g id s :
  let x := run w g (Worker_start id) s in
  let tr := trace x in
  variables_read tr = ["AWS_REGION"; "MINIMUM_GAP_BETWEEN_REQUESTS_SECONDS"]
  /\ calls is_recv tr = 0%nat
  /\ exists awsRegion gap,
       values_read tr = [awsRegion; gap]
       /\ durations_parsed tr = [gap +:+ "s"]
       /\ match errors is_ParseDuration tr with
          | err :: _ => gaps_parsed tr = []
                        /\ outcome_of x = Exited 1 /\ lines tr = [[AErr err]]
          | [] => exists minGap, gaps_parsed tr = [minGap]
                                 /\ outcome_of x = Returned (awsRegion, minGap)
                                 /\ lines tr = [[AInt id]]
          end.
Proof.
  intros x tr; subst tr x. apply every_run_any.
  unfold Worker_start, log_Fatalf. destruct s as [last mu now queue].
  explore; repeat split; eauto 10.
Qed.

(** In [processMessage] a session that cannot be created is a panic
    ([session.Must]) with the error of [NewSession]: the gate has been
    passed and the lock released, nothing has been asked of the storage
    or of any later stage, and [lastRequestTime] is unchanged. *)
Theorem session_failure_panics_after_the_gate
    w g id message svc sqsURL s3Bucket awsRegion minGap s err :
  let x := run w g (processMessage id message svc sqsURL s3Bucket awsRegion minGap) s in
  let tr := trace x in
  errors is_NewSession tr = [err] ->
  outcome_of x = Panicked err
  /\ calls is_read tr = 1%nat
  /\ calls is_Lock tr = 1%nat /\ calls is_Unlock tr = 1%nat
  /\ lastRequestTimeMu (final x) = None
  /\ calls is_fetch tr = 0%nat
  /\ calls is_extract tr = 0%nat
  /\ calls is_extend tr = 0%nat
  /\ all_before is_acquire is_NewSession tr = true
  /\ lastRequestTime (final x) = lastRequestTime s.
Proof.
  intros x tr; subst tr x. apply every_run_any.
  open_functions. destruct s as [last [h|] now queue].
  all: explore.
  all: try done.
  all: match goal with H : [_] = [_] |- _ => injection H as -> end.
  all: repeat split.
Qed.

(** An error of [Close] in [downloadFileFromS3] is printed, once, and is
    not returned: what the function returns is the same as when the close
    succeeds. *)
Theorem close_error_is_printed_not_returned w g s3Svc bucket path s :
  let x := run w g (downloadFileFromS3 s3Svc bucket path) s in
  let tr := trace x in
  lines tr = map (fun err => [AStr "Error closing S3 response body:"; AErr err])
                 (errors is_Close tr)
  /\ (length (errors is_Close tr) <= 1)%nat
  /\ (errors (fun e => is_GetObject e || is_ReadAll e) tr = [] ->
      exists content, contents tr = [content]
                      /\ outcome_of x = Returned (content, None)).
Proof.
  intros x tr; subst tr x. apply every_run_any.
  open_functions. destruct s as [last mu now queue].
  explore; repeat split; try done; try (cbn; lia); eauto.
Qed.

(** A body that [json.Unmarshal] rejects: [processMessage] logs the error
    and returns; it has made no other call, has not touched the lock and
    has left [lastRequestTime] as it was. *)
Theorem invalid_json_is_logged_and_dropped
    w g id message svc sqsURL s3Bucket awsRegion minGap s body err :
  Body message = Some body ->
  answer w (clock s) (json_Unmarshal body) = Err err ->
  let x := run w g (processMessage id message svc sqsURL s3Bucket awsRegion minGap) s in
  let tr := trace x in
  outcome_of x = Returned tt
  /\ lines tr = [[AStr "Error decoding JSON message:"; AErr err]]
  /\ length tr = 2%nat
  /\ calls is_downstream tr = 0%nat
  /\ calls is_Lock tr = 0%nat
  /\ lastRequestTime (final x) = lastRequestTime s
  /\ lastRequestTimeMu (final x) = lastRequestTimeMu s.
Proof.
  intros HB Hdec. open_functions. rewrite HB. cbn. unfold exec. cbn.
  rewrite Hdec. cbn. destruct s as [last mu now queue]; cbn.
  repeat split. f_equal. apply unit_eq.
Qed.

(** Alone and from an unlocked mutex, [processMessage] never waits: it
    returns or panics, with the mutex unlocked again, having unlocked as
    often as it locked; a panic is never the runtime's fatal error of an
    unlock without a lock, since every unlock follows a lock. *)
Theorem processMessage_releases_the_lock
    w g id message svc sqsURL s3Bucket awsRegion minGap s :
  lastRequestTimeMu s = None ->
  let x := run w g (processMessage id message svc sqsURL s3Bucket awsRegion minGap) s in
  let tr := trace x in
  outcome_of x <> Blocked
  /\ lastRequestTimeMu (final x) = None
  /\ calls is_Lock tr = calls is_Unlock tr
  /\ exists n, (n <= 2)%nat
       /\ map is_Lock (List.filter (fun e => is_Lock e || is_Unlock e) tr)
          = concat (replicate n [true; false]).
Proof.
  intros Hmu x tr; subst tr x. apply every_run_any.
  open_functions. destruct s as [last mu now queue]. cbn in Hmu. subst mu.
  explore.
  all: repeat split; try done.
  all: first [ exists 0%nat; split; [lia | reflexivity]
             | exists 1%nat; split; [lia | reflexivity]
             | exists 2%nat; split; [lia | reflexivity] ].
Qed.

(** No error is swallowed by [processMessage]: the error of every call
    that failed is shown in a line of the log, or is the panic the
    function ends with. *)
Theorem no_error_is_swallowed
    w g id message svc sqsURL s3Bucket awsRegion minGap s :
  let x := run w g (processMessage id message svc sqsURL s3Bucket awsRegion minGap) s in
  let tr := trace x in
  forall err, In err (errors any_call tr) ->
    (exists line, In line (lines tr) /\ shows err line)
    \/ outcome_of x = Panicked err.
Proof.
  intros x tr; subst tr x. apply every_run_any.
  open_functions. destruct s as [last [h|] now queue].
  all: explore.
  all: repeat match goal with
              | H : _ \/ _ |- _ => destruct H
              | H : False |- _ => destruct H
              end; subst.
  all: first [ right; reflexivity
             | left; unfold shows; cbn;
               eexists; split; [pick_line | cbn; solve [auto 10]] ].
Qed.

(** One goroutine alone keeps its stamps a gap apart: with [minGap] a
    [Duration] and a clock not behind the last stamp, a stamp written by
    [processMessage] is at least [minGap] after the stamp it found. *)
Theorem stamps_are_a_gap_apart
    w g id message svc sqsURL s3Bucket awsRegion minGap s :
  is_Duration minGap -> lastRequestTime s <= clock s ->
  let x := run w g (processMessage id message svc sqsURL s3Bucket awsRegion minGap) s in
  forall t, In t (stamps (trace x)) -> lastRequestTime s + minGap <= t.
Proof.
  intros HminGap Hclock x; subst x. apply every_run_any.
  open_functions. destruct s as [last [h|] now queue].
  all: explore.
  all: repeat match goal with
              | H : _ \/ _ |- _ => destruct H
              | H : False |- _ => destruct H
              end; subst.
  all: cbn in Hclock.
  all: match goal with
       | Hb : (_ <? _) = true |- _ =>
         apply Z.ltb_lt in Hb;
         rewrite Duration_sub_exact by (first [assumption | apply Time_Sub_range; lia])
       | Hb : (_ <? _) = false |- _ => apply Z.ltb_ge in Hb
       end.
  all: unfold is_Duration, Time_Sub, minDuration, maxDuration in *; lia.
Qed.

(** The sleep of the gate is bounded by the gap: with [minGap] a
    [Duration] and a clock not behind the last stamp, every sleep of
    [processMessage] is positive and at most [minGap]; with a gap of zero
    or less it never sleeps. *)
Theorem sleep_is_at_most_the_gap
    w g id message svc sqsURL s3Bucket awsRegion minGap s :
  is_Duration minGap -> lastRequestTime s <= clock s ->
  let x := run w g (processMessage id message svc sqsURL s3Bucket awsRegion minGap) s in
  (forall d, In d (sleeps (trace x)) -> 0 < d <= minGap)
  /\ (minGap <= 0 -> sleeps (trace x) = []).
Proof.
  intros HminGap Hclock x; subst x. apply every_run_any.
  open_functions. destruct s as [last [h|] now queue].
  all: explore.
  all: cbn in Hclock.
  all: split; [intros d0' Hin; cbn in Hin | intros Hneg]; try done.
  all: match goal with
       | Hb : (?E <? _) = true |- _ =>
         apply Z.ltb_lt in Hb;
         assert (0 <= E <= maxDuration) by (apply Time_Sub_range; lia);
         try rewrite Duration_sub_exact in Hin by (first [assumption | lia])
       end.
  all: try lia.
  all: destruct Hin as [<-|[]]; lia.
Qed.

End Alone.

(** ** More of the pool *)

Section PoolTime.
Context `{Ext : External}.

Lemma stamps_known_mono {R : Type} (p : prog R) : forall bound bound',
  bound <= bound' -> stamps_known bound p -> stamps_known bound' p.
Proof.
  induction p as [r|reason|code|c k IH]; intros bound bound' Hle; cbn; try done.
  destruct c; try (intros Hk x; apply (IH x bound bound' Hle), Hk).
  - intros [Ht Hk]. split; [lia|]. intros x. apply (IH x bound bound' Hle), Hk.
  - intros Hk x. apply (IH x (Z.max bound x)); [lia|apply Hk].
Qed.

Lemma processMessage_stamps_known id message svc sqsURL s3Bucket awsRegion minGap bound :
  stamps_known bound (processMessage id message svc sqsURL s3Bucket awsRegion minGap).
Proof. open_functions. check_stamps. Qed.

Lemma Worker_iteration_stamps_known id svc sqsURL s3Bucket awsRegion minGap bound :
  stamps_known bound (Worker_iteration id svc sqsURL s3Bucket awsRegion minGap).
Proof.
  unfold Worker_iteration. cbn. intros message. apply processMessage_stamps_known.
Qed.

Lemma Worker_start_stamps_known id bound : stamps_known bound (Worker_start id).
Proof. unfold Worker_start, log_Fatalf. check_stamps. Qed.

Lemma move_time {R : Type} w g (p : prog R) s p' s' nap :
  stamps_known (clock s) p -> lastRequestTime s <= clock s ->
  move w g p s = Some (Goes p' s' nap) ->
  stamps_known (clock s') p' /\ lastRequestTime s' <= clock s' /\ clock s' = clock s.
Proof.
  destruct s as [last mu now queue].
  destruct p as [r|reason|code|c k]; cbn; try discriminate.
  intros Hk Hle.
  destruct c; cbn in *;
    try (intros [= <- <- <-]; cbn; repeat split; solve [auto | lia]).
  - destruct queue as [|m q]; [discriminate|].
    intros [= <- <- <-]; cbn; auto.
  - destruct mu; [discriminate|]. intros [= <- <- <-]; cbn; auto.
  - destruct mu; [|discriminate]. intros [= <- <- <-]; cbn; auto.
  - intros [= <- <- <-]; cbn. destruct Hk as [Ht Hk]. auto.
  - intros [= <- <- <-]; cbn. repeat split; try lia.
    specialize (Hk now). rewrite Z.max_id in Hk. exact Hk.
Qed.

Lemma launch_time_invariant ws now queue :
  zeroTime <= now -> time_invariant (launch ws now queue).
Proof.
  intros Hnow. split; [exact Hnow|].
  intros g th Hth. cbn in Hth.
  apply list_lookup_fmap_Some in Hth as ([[[id svc] sqsURL] s3Bucket] & -> & _).
  apply Worker_start_stamps_known.
Qed.

Lemma time_invariant_update (P : Pool) g th' s' b :
  time_invariant P ->
  clock s' = clock (process P) ->
  lastRequestTime s' <= clock s' ->
  code_stamps_known (clock s') (w_phase th') ->
  time_invariant (mkPool s' (<[g := th']> (workers P)) b).
Proof.
  intros [Hle Hcode] Hclock Hle' Hth'. split; [exact Hle'|].
  intros g' t Ht. cbn in *.
  destruct (decide (g' = g)) as [->|Hne].
  - apply list_lookup_insert_Some in Ht as [(_ & <- & _)|(Hne & _)]; [assumption|done].
  - rewrite list_lookup_insert_ne in Ht by congruence.
    rewrite Hclock. apply Hcode with g'. exact Ht.
Qed.

Lemma fire_time_invariant w a P P' :
  time_invariant P -> fire w a P = Some P' ->
  time_invariant P' /\ clock (process P) <= clock (process P').
Proof.
  intros HP. unfold fire. destruct (alive P); [|discriminate].
  pose proof HP as [Hle Hcode].
  destruct a as [g|d].
  - destruct (workers P !! g) as [th|] eqn:Hth; [|discriminate]. cbn.
    specialize (Hcode g th Hth).
    destruct (w_wake th) as [t|] eqn:Hwake.
    { case_bool_decide; [|discriminate]. intros [= <-]. split; [|cbn; lia].
      apply time_invariant_update; auto. }
    destruct (w_phase th) as [p|awsRegion minGap p] eqn:Hph.
    + destruct p as [[awsRegion minGap]|reason|code|c k] eqn:Hp.
      * intros [= <-]. split; [|cbn; lia].
        apply time_invariant_update; auto. apply Worker_iteration_stamps_known.
      * intros [= <-]. split; [exact HP|cbn; lia].
      * intros [= <-]. split; [exact HP|cbn; lia].
      * rewrite <- Hp. rewrite <- Hp in Hcode.
        destruct (move w g p (process P)) as [[p' s' nap|]|] eqn:Hm;
          intros [= <-]; [|split; [exact HP|cbn; lia]].
        destruct (move_time _ _ _ _ _ _ _ Hcode Hle Hm) as (Hk & Hle' & Hclock).
        split; [|cbn; lia]. apply time_invariant_update; auto.
    + destruct p as [[]|reason|code|c k] eqn:Hp.
      * intros [= <-]. split; [|cbn; lia].
        apply time_invariant_update; auto. apply Worker_iteration_stamps_known.
      * intros [= <-]. split; [exact HP|cbn; lia].
      * intros [= <-]. split; [exact HP|cbn; lia].
      * rewrite <- Hp. rewrite <- Hp in Hcode.
        destruct (move w g p (process P)) as [[p' s' nap|]|] eqn:Hm;
          intros [= <-]; [|split; [exact HP|cbn; lia]].
        destruct (move_time _ _ _ _ _ _ _ Hcode Hle Hm) as (Hk & Hle' & Hclock).
        split; [|cbn; lia]. apply time_invariant_update; auto.
  - intros [= <-]. destruct (process P) as [last mu now queue] eqn:Hproc. cbn in *.
    split; [|lia]. split; cbn; [lia|].
    intros g th Hth. specialize (Hcode g th Hth).
    destruct (w_phase th); cbn in *; eapply stamps_known_mono; try eassumption; lia.
Qed.

(** In every state the pool reaches from a launch at or after the zero
    [Time], the stamp is not ahead of the clock, and the clock is not
    behind the launch: [time.Since(lastRequestTime)] is never negative. *)
Theorem stamp_never_ahead_of_the_clock ws now queue (P : Pool) :
  zeroTime <= now ->
  reachable (launch ws now queue) P ->
  lastRequestTime (process P) <= clock (process P)
  /\ now <= clock (process P)
  /\ 0 <= Time_Sub (clock (process P)) (lastRequestTime (process P)).
Proof.
  intros Hnow Hreach.
  assert (time_invariant P /\ now <= clock (process P)) as [[Hle _] Hclock].
  { pose proof (launch_time_invariant ws now queue Hnow) as H0.
    assert (Hc0 : now <= clock (process (launch ws now queue))) by (cbn; lia).
    revert H0 Hc0.
    induction Hreach as [|P1 P2 P3 (w & a & Hfire) _ IH]; [auto|].
    intros H1 Hc1. destruct (fire_time_invariant w a P1 P2 H1 Hfire) as [H2 Hc2].
    apply IH; [exact H2|lia]. }
  repeat split; try assumption. apply Time_Sub_range. exact Hle.
Qed.

(** In every state the pool reaches from its launch, at most one
    goroutine is between [Lock] and [Unlock]; and a step that ends the
    process is the step of a goroutine that panicked or exited, never the
    runtime's fatal error of an unlock without a lock. *)
Theorem lock_is_exclusive ws now queue (P : Pool) :
  reachable (launch ws now queue) P ->
  (forall g g' th th' c c',
     workers P !! g = Some th -> workers P !! g' = Some th' ->
     next_call th = Some c -> next_call th' = Some c' ->
     in_critical_section c = true -> in_critical_section c' = true ->
     g = g')
  /\ (forall w g P',
        fire w (Step g) P = Some P' -> alive P' = false ->
        exists th, workers P !! g = Some th /\ w_wake th = None /\ stopped th).
Proof.
  intros Hreach.
  pose proof (reachable_invariant _ _ (launch_invariant ws now queue) Hreach) as HP.
  assert (Hcs : forall g th c, workers P !! g = Some th -> next_call th = Some c ->
                  in_critical_section c = true ->
                  lastRequestTimeMu (process P) = Some g).
  { intros g th c Hth Hc Hcs. apply holds_spec.
    pose proof (next_call_permitted P g th c HP Hth Hc) as Hperm.
    destruct (holds P g); [reflexivity|]. destruct c; discriminate. }
  split.
  - intros g g' th th' c c' Hth Hth' Hc Hc' Hcs1 Hcs2.
    pose proof (Hcs g th c Hth Hc Hcs1) as H1.
    pose proof (Hcs g' th' c' Hth' Hc' Hcs2) as H2. congruence.
  - intros w g P'. unfold fire. destruct (alive P); [|discriminate].
    destruct (workers P !! g) as [th|] eqn:Hth; [|discriminate]. cbn.
    intros Hfire Hdead. exists th. split; [reflexivity|].
    destruct (w_wake th) as [t|] eqn:Hwake.
    { case_bool_decide; [|discriminate]. injection Hfire as <-. discriminate. }
    split; [reflexivity|]. unfold stopped.
    assert (Hmove : forall R (p : prog R) c k, p = Vis c k ->
              next_call th = Some c -> move w g p (process P) <> Some Dies).
    { intros R p c k -> Hc.
      assert (Hen : c = Mu_Unlock -> is_Some (lastRequestTimeMu (process P))).
      { intros ->. rewrite (Hcs g th Mu_Unlock Hth Hc eq_refl). eauto. }
      cbn. destruct (process P) as [last mu now' q].
      destruct c; cbn; try discriminate.
      - destruct q; discriminate.
      - destruct mu; discriminate.
      - destruct (Hen eq_refl) as [h Hh]. cbn in Hh. subst mu. discriminate. }
    unfold next_call in Hmove. rewrite Hwake in Hmove.
    destruct (w_phase th) as [p|awsRegion minGap p] eqn:Hph.
    + destruct p as [[awsRegion minGap]|reason|code|c k]; try exact I.
      * injection Hfire as <-. discriminate.
      * destruct (move w g (Vis c k) (process P)) as [[p' s' nap|]|] eqn:Hm;
          [injection Hfire as <-; discriminate | | discriminate].
        exfalso. eapply (Hmove _ (Vis c k)); eauto.
    + destruct p as [[]|reason|code|c k]; try exact I.
      * injection Hfire as <-. discriminate.
      * destruct (move w g (Vis c k) (process P)) as [[p' s' nap|]|] eqn:Hm;
          [injection Hfire as <-; discriminate | | discriminate].
        exfalso. eapply (Hmove _ (Vis c k)); eauto.
Qed.

End PoolTime.

(** ** The further properties at the scenarios *)

(** A misconfigured gap ends the process at the start of the first
    worker that reads it, before any message is received. *)
Example bad_gap_ends_the_process :
  let x := run world_bad_gap 0 (Worker_start 1) (boot in_2024 [message_A]) in
  outcome_of x = Exited 1
  /\ durations_parsed (trace x) = ["fives"]
  /\ lines (trace x) = [[AErr "time: invalid duration"]]
  /\ messageQueue (final x) = [message_A]
  /\ alive <$> play world_bad_gap schedule_bad_gap (two_workers [message_A])
     = Some false.
Proof. vm_compute. repeat split. Qed.

Lemma session_failure_panics_in_a_world_without_session :
  let x := process_in world_no_session message_A (boot in_2024 []) in
  errors is_NewSession (trace x) = ["NoCredentialProviders"]
  /\ outcome_of x = Panicked "NoCredentialProviders"
  /\ calls is_fetch (trace x) = 0%nat.
Proof.
  split; [vm_compute; reflexivity|].
  destruct (session_failure_panics_after_the_gate world_no_session 0 7 message_A tt
              "https://sqs/q" "bucket" "eu-west-2" (5 * Second) (boot in_2024 [])
              "NoCredentialProviders")
    as (Hout & _ & _ & _ & _ & Hfetch & _);
    [vm_compute; reflexivity | split; assumption].
Defined.

Lemma invalid_json_is_dropped_in_scenario_A :
  let x := process_in world_A message_not_json (boot in_2024 []) in
  Body message_not_json = Some "docs/1.pdf"
  /\ answer world_A (clock (boot in_2024 [])) (json_Unmarshal "docs/1.pdf")
     = Err "invalid character"
  /\ outcome_of x = Returned tt
  /\ lines (trace x) = [[AStr "Error decoding JSON message:"; AErr "invalid character"]]
  /\ calls is_downstream (trace x) = 0%nat.
Proof.
  split; [reflexivity|]. split; [vm_compute; reflexivity|].
  destruct (invalid_json_is_logged_and_dropped world_A 0 7 message_not_json tt
              "https://sqs/q" "bucket" "eu-west-2" (5 * Second) (boot in_2024 [])
              "docs/1.pdf" "invalid character")
    as (Hout & Hlines & _ & Hdown & _);
    [reflexivity | vm_compute; reflexivity | repeat split; assumption].
Defined.

Lemma missing_screen_id_is_an_undecodable_field :
  let x := process_in world_A message_no_screen (boot in_2024 []) in
  outcome_of x = Panicked "interface conversion: interface {} is not string"
  /\ length (trace x) = 1%nat.
Proof.
  destruct (undecodable_fields_panic world_A 0 7 message_no_screen tt
              "https://sqs/q" "bucket" "eu-west-2" (5 * Second) (boot in_2024 [])
              body_no_screen
              (<["s3Location" := JString "docs/1.pdf"]>
                 (<["user_id" := JString "u1"]> ∅)))
    as [Hout Htrace].
  - reflexivity.
  - vm_compute. reflexivity.
  - right. right. intros screenID. vm_compute. discriminate.
  - split; [exact Hout|]. cbv zeta in Htrace. unfold process_in. rewrite Htrace.
    reflexivity.
Defined.

Lemma scenario_A_releases_the_lock :
  let x := process_in world_A message_A (boot in_2024 []) in
  lastRequestTimeMu (boot in_2024 []) = None
  /\ outcome_of x <> Blocked
  /\ lastRequestTimeMu (final x) = None
  /\ calls is_Lock (trace x) = 2%nat.
Proof.
  split; [reflexivity|].
  destruct (processMessage_releases_the_lock world_A 0 7 message_A tt
              "https://sqs/q" "bucket" "eu-west-2" (5 * Second) (boot in_2024 []))
    as (Hout & Hmu & _); [reflexivity|].
  split; [exact Hout|]. split; [exact Hmu|]. vm_compute; reflexivity.
Defined.

Lemma untidy_error_is_logged :
  let x := process_in world_untidy message_A (boot in_2024 []) in
  In "no TEI header" (errors any_call (trace x))
  /\ ((exists line, In line (lines (trace x)) /\ shows "no TEI header" line)
      \/ outcome_of x = Panicked "no TEI header").
Proof.
  assert (Hin : In "no TEI header"
                  (errors any_call
                     (trace (process_in world_untidy message_A (boot in_2024 []))))).
  { vm_compute. left. reflexivity. }
  split; [exact Hin|].
  apply (no_error_is_swallowed world_untidy 0 7 message_A tt "https://sqs/q"
           "bucket" "eu-west-2" (5 * Second) (boot in_2024 [])).
  exact Hin.
Defined.

Lemma stamp_a_gap_after_the_last :
  let x := process_in world_A_instant message_A a_second_after_a_stamp in
  is_Duration (5 * Second)
  /\ lastRequestTime a_second_after_a_stamp <= clock a_second_after_a_stamp
  /\ In (in_2024 + 4 * Second) (stamps (trace x))
  /\ lastRequestTime a_second_after_a_stamp + 5 * Second <= in_2024 + 4 * Second.
Proof.
  assert (Hd : is_Duration (5 * Second)) by (vm_compute; split; discriminate).
  assert (Hc : lastRequestTime a_second_after_a_stamp <= clock a_second_after_a_stamp)
    by (vm_compute; discriminate).
  assert (Hin : In (in_2024 + 4 * Second)
                  (stamps (trace (process_in world_A_instant message_A
                                    a_second_after_a_stamp)))).
  { vm_compute. left. reflexivity. }
  repeat split; try assumption; try apply Hd.
  apply (stamps_are_a_gap_apart world_A_instant 0 7 message_A tt "https://sqs/q"
           "bucket" "eu-west-2" (5 * Second) a_second_after_a_stamp Hd Hc).
  exact Hin.
Defined.

Lemma sleep_of_four_seconds_is_within_the_gap :
  let x := process_in world_A_instant message_A a_second_after_a_stamp in
  is_Duration (5 * Second)
  /\ lastRequestTime a_second_after_a_stamp <= clock a_second_after_a_stamp
  /\ In (4 * Second) (sleeps (trace x))
  /\ 0 < 4 * Second <= 5 * Second.
Proof.
  assert (Hd : is_Duration (5 * Second)) by (vm_compute; split; discriminate).
  assert (Hc : lastRequestTime a_second_after_a_stamp <= clock a_second_after_a_stamp)
    by (vm_compute; discriminate).
  assert (Hin : In (4 * Second)
                  (sleeps (trace (process_in world_A_instant message_A
                                    a_second_after_a_stamp)))).
  { vm_compute. left. reflexivity. }
  split; [exact Hd|]. split; [exact Hc|]. split; [exact Hin|].
  apply (sleep_is_at_most_the_gap world_A_instant 0 7 message_A tt "https://sqs/q"
           "bucket" "eu-west-2" (5 * Second) a_second_after_a_stamp Hd Hc).
  exact Hin.
Defined.

Lemma stamp_behind_the_clock_while_a_worker_sleeps :
  zeroTime <= in_2024
  /\ reachable (two_workers [message_A; message_A'; message_A]) pool_asleep
  /\ lastRequestTime (process pool_asleep) <= clock (process pool_asleep).
Proof.
  assert (Hnow : zeroTime <= in_2024) by (vm_compute; discriminate).
  assert (Hreach : reachable (two_workers [message_A; message_A'; message_A])
                     pool_asleep).
  { apply (play_default_reachable world_A_instant schedule_asleep).
    vm_compute. reflexivity. }
  split; [exact Hnow|]. split; [exact Hreach|].
  apply (stamp_never_ahead_of_the_clock _ _ _ _ Hnow Hreach).
Defined.

Lemma one_worker_in_the_critical_section :
  reachable (two_workers [message_A; message_A'; message_A]) pool_asleep
  /\ next_call <$> workers pool_asleep !! 1%nat = Some (Some load_lastRequestTime)
  /\ (forall g g' th th' c c',
        workers pool_asleep !! g = Some th -> workers pool_asleep !! g' = Some th' ->
        next_call th = Some c -> next_call th' = Some c' ->
        in_critical_section c = true -> in_critical_section c' = true ->
        g = g').
Proof.
  assert (Hreach : reachable (two_workers [message_A; message_A'; message_A])
                     pool_asleep).
  { apply (play_default_reachable world_A_instant schedule_asleep).
    vm_compute. reflexivity. }
  split; [exact Hreach|]. split; [vm_compute; reflexivity|].
  apply (lock_is_exclusive _ _ _ _ Hreach).
Defined.
